(** * Event and Booking models: save-time normalisation and integrity checks

    A shallow embedding of the two Mongoose models of the repository
    ([database/event.model.ts], [database/booking.model.ts]) and of the part
    of the JavaScript runtime they call: string methods, regular expressions
    with [test] and global [replace], and [Date].

    Strings.  A JavaScript string is a sequence of UTF-16 code units.  Here a
    string is a [list ascii] and the character with code [n] stands for the
    code unit [n]; the development therefore covers the strings whose code
    units lie in U+0000..U+00FF (Basic Latin and Latin-1 Supplement), on
    which [toLowerCase], [trim] and the classes [\w], [\s], [\d] are modelled
    exactly as ECMAScript defines them.

    Dates.  A Date is its time value, an integer number of milliseconds
    since the epoch.  [Date.parse] is modelled on the format ECMAScript
    specifies; what an implementation reads beyond it, and the offset of
    local time, are fields of a [Host].

    Mongoose.  A document in memory carries its fields, [isNew] and
    [isModified]; [save] validates, runs the [pre('save')] hook, then writes
    to the collection, a list of documents with the unique indexes the
    schema declares. *)

From Stdlib Require Import Ascii String List ZArith NArith Bool Lia.
Import ListNotations.


(* ===================================================================== *)
(** ** JavaScript strings over Latin-1 *)
(* ===================================================================== *)

Module JsString.

Definition jsstring := list ascii.

(** A string literal of the source. *)
Definition lit (s : string) : jsstring := list_ascii_of_string s.

Definition code (c : ascii) : N := N_of_ascii c.

Definition between (lo hi : N) (c : ascii) : bool :=
  ((lo <=? code c) && (code c <=? hi))%N.

Definition isCode (n : N) (c : ascii) : bool := (code c =? n)%N.

(** [\d]: the ten decimal digits. *)
Definition isDigit (c : ascii) : bool := between 48 57 c.

(** The letters of [\w]: A-Z and a-z. *)
Definition isLetter (c : ascii) : bool := between 65 90 c || between 97 122 c.

(** [\w] is [[A-Za-z0-9_]]. *)
Definition isWord (c : ascii) : bool := isLetter c || isDigit c || isCode 95 c.

(** [\s], which is also what [trim] removes: TAB, LF, VT, FF, CR, SPACE
    and, in Latin-1, NO-BREAK SPACE. *)
Definition isWhiteSpace (c : ascii) : bool :=
  between 9 13 c || isCode 32 c || isCode 160 c.

Definition isHyphen (c : ascii) : bool := isCode 45 c.

(** [String.prototype.toLowerCase] on one Latin-1 code unit: A-Z and the
    capital letters U+00C0..U+00DE (all but the sign U+00D7) move up by 32. *)
Definition lowerChar (c : ascii) : ascii :=
  if between 65 90 c || (between 192 222 c && negb (isCode 215 c))
  then ascii_of_N (code c + 32)
  else c.

Definition toLowerCase (s : jsstring) : jsstring := map lowerChar s.

Fixpoint trimStart (s : jsstring) : jsstring :=
  match s with
  | [] => []
  | c :: s' => if isWhiteSpace c then trimStart s' else s
  end.

Definition trimEnd (s : jsstring) : jsstring := rev (trimStart (rev s)).

Definition trim (s : jsstring) : jsstring := trimEnd (trimStart s).

(** [s.split(c)[0]]: the part of [s] before the first [c]. *)
Fixpoint splitHead (sep : ascii -> bool) (s : jsstring) : jsstring :=
  match s with
  | [] => []
  | c :: s' => if sep c then [] else c :: splitHead sep s'
  end.

(** [s.padStart(n, "0")]. *)
Definition padStart0 (n : nat) (s : jsstring) : jsstring :=
  repeat "0"%char (n - length s) ++ s.

Definition jsstring_eqb (a b : jsstring) : bool :=
  if list_eq_dec ascii_dec a b then true else false.

End JsString.

Import JsString.

(* ===================================================================== *)
(** ** Regular expressions *)
(* ===================================================================== *)

Module Regex.

(** The fragment of the regular expression syntax the two models use. *)
Inductive regex : Type :=
| Void : regex
| Eps : regex
| Class : (ascii -> bool) -> regex
| Cat : regex -> regex -> regex
| Alt : regex -> regex -> regex
| Star : regex -> regex.

(** [r+] *)
Definition Plus (r : regex) : regex := Cat r (Star r).

(** A literal character of the pattern. *)
Definition Chr (c : ascii) : regex := Class (Ascii.eqb c).

(** [[^...]] *)
Definition NotClass (p : ascii -> bool) : regex := Class (fun c => negb (p c)).

Fixpoint nullable (r : regex) : bool :=
  match r with
  | Void => false
  | Eps => true
  | Class _ => false
  | Cat a b => nullable a && nullable b
  | Alt a b => nullable a || nullable b
  | Star _ => true
  end.

(** Brzozowski derivative: what is left of [r] once [c] is read. *)
Fixpoint deriv (c : ascii) (r : regex) : regex :=
  match r with
  | Void => Void
  | Eps => Void
  | Class p => if p c then Eps else Void
  | Cat a b =>
      if nullable a then Alt (Cat (deriv c a) b) (deriv c b)
      else Cat (deriv c a) b
  | Alt a b => Alt (deriv c a) (deriv c b)
  | Star a => Cat (deriv c a) (Star a)
  end.

(** [/^r$/.test(s)]: the whole of [s] is matched by [r]. *)
Fixpoint test (r : regex) (s : jsstring) : bool :=
  match s with
  | [] => nullable r
  | c :: s' => test (deriv c r) s'
  end.

(** Length of the longest prefix of [s] that [r] matches, if any. *)
Fixpoint longest (r : regex) (s : jsstring) : option nat :=
  match s with
  | [] => if nullable r then Some 0 else None
  | c :: s' =>
      match longest (deriv c r) s' with
      | Some n => Some (S n)
      | None => if nullable r then Some 0 else None
      end
  end.

(** [s.replace(/r/g, rep)]: scan from the left; at each position take the
    match of [r] starting there, write [rep] for it and go on after it;
    where there is none, copy the character.  The match taken is the
    longest one, which is the one the backtracking matcher of ECMAScript
    finds for a pattern that is a character class or a class under [+],
    the only patterns the models pass to [replace]. *)
Fixpoint replaceFrom (fuel : nat) (r : regex) (rep s : jsstring) : jsstring :=
  match fuel with
  | O => s
  | S fuel' =>
      match s with
      | [] => if nullable r then rep else []
      | c :: s' =>
          match longest r s with
          | Some (S n) => rep ++ replaceFrom fuel' r rep (skipn n s')
          | Some O => rep ++ c :: replaceFrom fuel' r rep s'
          | None => c :: replaceFrom fuel' r rep s'
          end
      end
  end.

Definition replaceAll (r : regex) (rep s : jsstring) : jsstring :=
  replaceFrom (S (length s)) r rep s.

(** Denotation of a pattern, against which [test] and [longest] are
    justified. *)
Inductive matches : regex -> jsstring -> Prop :=
| MEps : matches Eps []
| MClass : forall (p : ascii -> bool) c, p c = true -> matches (Class p) [c]
| MCat : forall a b s1 s2,
    matches a s1 -> matches b s2 -> matches (Cat a b) (s1 ++ s2)
| MAltL : forall a b s, matches a s -> matches (Alt a b) s
| MAltR : forall a b s, matches b s -> matches (Alt a b) s
| MStar0 : forall a, matches (Star a) []
| MStarS : forall a s1 s2,
    matches a s1 -> matches (Star a) s2 -> matches (Star a) (s1 ++ s2).

End Regex.

Import Regex.

(* ===================================================================== *)
(** ** The Date object *)
(* ===================================================================== *)

Module JsDate.

Local Open Scope Z_scope.

(** What the models' code takes from its host: the offset of local time
    from UTC in milliseconds (taken as constant), and the answer of
    [Date.parse] on the strings that are not read by [parseISO] below,
    where ECMAScript leaves the accepted formats to the implementation.
    [None] stands for NaN. *)
Record Host : Type := {
  LocalTZA : Z;
  parseOther : jsstring -> option Z
}.

Definition msPerSecond : Z := 1000.
Definition msPerMinute : Z := 60000.
Definition msPerHour : Z := 3600000.
Definition msPerDay : Z := 86400000.

Definition Day (t : Z) : Z := t / msPerDay.
Definition TimeWithinDay (t : Z) : Z := t mod msPerDay.

Definition isLeap (y : Z) : bool :=
  ((y mod 4 =? 0) && negb (y mod 100 =? 0)) || (y mod 400 =? 0).

Definition DaysInYear (y : Z) : Z := if isLeap y then 366 else 365.

Definition DayFromYear (y : Z) : Z :=
  365 * (y - 1970) + (y - 1969) / 4 - (y - 1901) / 100 + (y - 1601) / 400.

(** The year [y] with [DayFromYear y <= Day t < DayFromYear (y + 1)]. *)
Definition YearFromTime (t : Z) : Z :=
  let d := Day t in
  let y := 1970 + d * 400 / 146097 in
  if d <? DayFromYear y then y - 1
  else if DayFromYear (y + 1) <=? d then y + 1
  else y.

Definition InLeapYear (t : Z) : Z := if isLeap (YearFromTime t) then 1 else 0.

Definition DayWithinYear (t : Z) : Z := Day t - DayFromYear (YearFromTime t).

(** Months are numbered from 0, as in ECMAScript. *)
Definition MonthFromTime (t : Z) : Z :=
  let d := DayWithinYear t in
  let l := InLeapYear t in
  if d <? 31 then 0
  else if d <? 59 + l then 1
  else if d <? 90 + l then 2
  else if d <? 120 + l then 3
  else if d <? 151 + l then 4
  else if d <? 181 + l then 5
  else if d <? 212 + l then 6
  else if d <? 243 + l then 7
  else if d <? 273 + l then 8
  else if d <? 304 + l then 9
  else if d <? 334 + l then 10
  else 11.

(** Days of the year before month [m] (from 0), [l] being 1 in a leap year. *)
Definition daysBeforeMonth (l m : Z) : Z :=
  match m with
  | 0 => 0
  | 1 => 31
  | 2 => 59 + l
  | 3 => 90 + l
  | 4 => 120 + l
  | 5 => 151 + l
  | 6 => 181 + l
  | 7 => 212 + l
  | 8 => 243 + l
  | 9 => 273 + l
  | 10 => 304 + l
  | _ => 334 + l
  end.

Definition DateFromTime (t : Z) : Z :=
  DayWithinYear t - daysBeforeMonth (InLeapYear t) (MonthFromTime t) + 1.

Definition HourFromTime (t : Z) : Z := (t / msPerHour) mod 24.
Definition MinFromTime (t : Z) : Z := (t / msPerMinute) mod 60.
Definition SecFromTime (t : Z) : Z := (t / msPerSecond) mod 60.
Definition msFromTime (t : Z) : Z := t mod msPerSecond.

Definition MakeTime (h m s ms : Z) : Z :=
  h * msPerHour + m * msPerMinute + s * msPerSecond + ms.

(** [MakeDay] for a month in 0..11. *)
Definition MakeDay (year month date : Z) : Z :=
  DayFromYear year
  + daysBeforeMonth (if isLeap year then 1 else 0) month
  + date - 1.

Definition MakeDate (day time : Z) : Z := day * msPerDay + time.

Definition TimeClip (t : Z) : option Z :=
  if Z.abs t <=? 8640000000000000 then Some t else None.

Definition LocalTime (h : Host) (t : Z) : Z := t + LocalTZA h.
Definition UTC (h : Host) (t : Z) : Z := t - LocalTZA h.

(** Days of month [m] (from 0) of year [y]. *)
Definition DaysInMonth (y m : Z) : Z :=
  if m =? 11 then 31
  else daysBeforeMonth (if isLeap y then 1 else 0) (m + 1)
       - daysBeforeMonth (if isLeap y then 1 else 0) m.

(** *** Numbers to strings *)

Definition digitChar (d : Z) : ascii := ascii_of_N (48 + Z.to_N d).

Fixpoint digitsFrom (fuel : nat) (n : Z) (acc : jsstring) : jsstring :=
  match fuel with
  | O => acc
  | S fuel' =>
      let acc' := digitChar (n mod 10) :: acc in
      if n <? 10 then acc' else digitsFrom fuel' (n / 10) acc'
  end.

(** [n.toString()] for an integer [n >= 0]. *)
Definition toString (n : Z) : jsstring :=
  digitsFrom (S (Z.to_nat (Z.log2 n))) n [].

Definition pad (width : nat) (n : Z) : jsstring := padStart0 width (toString n).

(** *** Strings to numbers *)

Definition digitVal (c : ascii) : option Z :=
  if isDigit c then Some (Z.of_N (code c) - 48) else None.

Fixpoint number (acc : Z) (ds : jsstring) : option Z :=
  match ds with
  | [] => Some acc
  | c :: ds' =>
      match digitVal c with
      | Some d => number (10 * acc + d) ds'
      | None => None
      end
  end.

(** The year of the Date Time String Format: [YYYY], or a sign and six
    digits, [-000000] excluded. *)
Definition parseYear (s : jsstring) : option (Z * jsstring) :=
  match s with
  | [] => None
  | sg :: s' =>
      if isCode 43 sg || isCode 45 sg then
        match s' with
        | a :: b :: c :: d :: e :: f :: rest =>
            match number 0 [a; b; c; d; e; f] with
            | Some y =>
                if isCode 45 sg then
                  if y =? 0 then None else Some (- y, rest)
                else Some (y, rest)
            | None => None
            end
        | _ => None
        end
      else
        match s with
        | a :: b :: c :: d :: rest =>
            option_map (fun y => (y, rest)) (number 0 [a; b; c; d])
        | _ => None
        end
  end.

(** [-MM-DD] with a month in 01..12 and a day that exists in it. *)
Definition parseMonthDay (y : Z) (s : jsstring) : option (Z * Z * jsstring) :=
  match s with
  | h1 :: m1 :: m2 :: h2 :: d1 :: d2 :: rest =>
      if isHyphen h1 && isHyphen h2 then
        match number 0 [m1; m2], number 0 [d1; d2] with
        | Some m, Some d =>
            if (1 <=? m) && (m <=? 12) && (1 <=? d) && (d <=? DaysInMonth y (m - 1))
            then Some (m - 1, d, rest)
            else None
        | _, _ => None
        end
      else None
  | _ => None
  end.

(** The time part [THH:mm], optionally followed by [Z].  The result is the
    time within the day and whether it is given in UTC. *)
Definition parseTimePart (s : jsstring) : option (Z * bool) :=
  match s with
  | tc :: h1 :: h2 :: cl :: m1 :: m2 :: rest =>
      if isCode 84 tc && isCode 58 cl then
        match number 0 [h1; h2], number 0 [m1; m2] with
        | Some hh, Some mm =>
            if (hh <=? 23) && (mm <=? 59) then
              match rest with
              | [] => Some (MakeTime hh mm 0 0, false)
              | [z] => if isCode 90 z then Some (MakeTime hh mm 0 0, true) else None
              | _ => None
              end
            else None
        | _, _ => None
        end
      else None
  | _ => None
  end.

(** The forms [YYYY-MM-DD], [YYYY-MM-DDTHH:mm] and [YYYY-MM-DDTHH:mmZ],
    also with an expanded year, of the Date Time String Format.  A date
    alone is a UTC time; a date and time without [Z] is a local time. *)
Definition parseISO (h : Host) (s : jsstring) : option Z :=
  match parseYear s with
  | None => None
  | Some (y, s1) =>
      match parseMonthDay y s1 with
      | None => None
      | Some (m, d, []) => Some (MakeDate (MakeDay y m d) 0)
      | Some (m, d, s2) =>
          match parseTimePart s2 with
          | None => None
          | Some (tm, true) => Some (MakeDate (MakeDay y m d) tm)
          | Some (tm, false) => Some (UTC h (MakeDate (MakeDay y m d) tm))
          end
      end
  end.

(** [Date.parse]: the specified format first, then whatever else the host
    reads. *)
Definition parse (h : Host) (s : jsstring) : option Z :=
  match parseISO h s with
  | Some t => Some t
  | None => parseOther h s
  end.

(** [new Date(s)]: the time value, or [None] for an invalid Date
    ([getTime()] is NaN). *)
Definition newDate (h : Host) (s : jsstring) : option Z :=
  match parse h s with
  | Some t => TimeClip t
  | None => None
  end.

(** [toISOString()] of a valid Date. *)
Definition yearString (y : Z) : jsstring :=
  if (0 <=? y) && (y <=? 9999) then pad 4 y
  else (if y <? 0 then "-"%char else "+"%char) :: pad 6 (Z.abs y).

Definition toISOString (t : Z) : jsstring :=
  yearString (YearFromTime t) ++ lit "-" ++ pad 2 (MonthFromTime t + 1)
  ++ lit "-" ++ pad 2 (DateFromTime t)
  ++ lit "T" ++ pad 2 (HourFromTime t) ++ lit ":" ++ pad 2 (MinFromTime t)
  ++ lit ":" ++ pad 2 (SecFromTime t) ++ lit "." ++ pad 3 (msFromTime t)
  ++ lit "Z".

(** The calendar date of [t] in UTC, as [toISOString] writes it. *)
Definition utcDate (t : Z) : jsstring :=
  yearString (YearFromTime t) ++ lit "-" ++ pad 2 (MonthFromTime t + 1)
  ++ lit "-" ++ pad 2 (DateFromTime t).

Definition getHours (h : Host) (t : Z) : Z := HourFromTime (LocalTime h t).
Definition getMinutes (h : Host) (t : Z) : Z := MinFromTime (LocalTime h t).

(** The canonical form [YYYY-MM-DD] of the day [d] of month [m] (from 0)
    of year [y], and the dates it is written for. *)
Definition canonicalDate (y m d : Z) : jsstring :=
  pad 4 y ++ lit "-" ++ pad 2 (m + 1) ++ lit "-" ++ pad 2 d.

Definition validDate (y m d : Z) : Prop :=
  0 <= y <= 9999 /\ 0 <= m <= 11 /\ 1 <= d <= DaysInMonth y m.

(** Padding a number and reading it back, as a test on one number; the
    proofs run it over the four-digit and the two-digit numbers. *)
Definition check4 (n : nat) : bool :=
  match pad 4 (Z.of_nat n) with
  | [a; b; c; d] =>
      negb (isCode 43 a || isCode 45 a)
      && match number 0 [a; b; c; d] with
         | Some v => v =? Z.of_nat n
         | None => false
         end
  | _ => false
  end.

Definition check2 (n : nat) : bool :=
  match pad 2 (Z.of_nat n) with
  | [a; b] =>
      match number 0 [a; b] with
      | Some v => v =? Z.of_nat n
      | None => false
      end
  | _ => false
  end.

End JsDate.

Import JsDate.

(* ===================================================================== *)
(** ** Mongoose: errors, hooks and collections *)
(* ===================================================================== *)

Module Mongoose.

(** An [ObjectId] is kept as its 24-digit hexadecimal rendering, which is
    what a template literal prints for it. *)
Definition ObjectId := jsstring.

Definition oid_eqb (a b : ObjectId) : bool := jsstring_eqb a b.

(** JavaScript exceptions the hooks can raise. *)
Inductive JsError : Type :=
| Error : jsstring -> JsError
| TypeError : jsstring -> JsError.

(** Result of a function that returns or throws. *)
Inductive Result (A : Type) : Type :=
| Ok : A -> Result A
| Throw : JsError -> Result A.

Arguments Ok {A} _.
Arguments Throw {A} _.

(** Why a [save] is rejected: the validation error of Mongoose, with the
    failing paths and their messages; the error a [pre('save')] hook gave
    to [next]; the duplicate key error of a unique index, with the indexed
    path; the error of an update that finds no document. *)
Inductive SaveError (path : Type) : Type :=
| ValidationError : list (path * jsstring) -> SaveError path
| HookError : JsError -> SaveError path
| DuplicateKey : jsstring -> SaveError path
| DocumentNotFound : SaveError path.

Arguments ValidationError {path} _.
Arguments HookError {path} _.
Arguments DuplicateKey {path} _.
Arguments DocumentNotFound {path}.

(** A hook body: code that reads and assigns the fields of [this] (a state
    of type [S]) and either returns or throws. *)
Definition Hook (S A : Type) : Type := S -> S * Result A.

Definition ret {S A : Type} (a : A) : Hook S A := fun s => (s, Ok a).

Definition throw {S A : Type} (e : JsError) : Hook S A := fun s => (s, Throw e).

Definition bind {S A B : Type} (m : Hook S A) (k : A -> Hook S B) : Hook S B :=
  fun s =>
    match m s with
    | (s', Ok a) => k a s'
    | (s', Throw e) => (s', Throw e)
    end.

Definition this {S : Type} : Hook S S := fun s => (s, Ok s).

Definition assign {S : Type} (f : S -> S) : Hook S unit := fun s => (f s, Ok tt).

Definition call {S A : Type} (r : Result A) : Hook S A := fun s => (s, r).

Definition when {S : Type} (b : bool) (m : Hook S unit) : Hook S unit :=
  if b then m else ret tt.

(** [try { body; next() } catch (error) { next(error) }]: the argument
    given to [next], with the state the body left behind. *)
Definition tryNext {S : Type} (body : Hook S unit) : S -> S * option JsError :=
  fun s =>
    match body s with
    | (s', Ok _) => (s', None)
    | (s', Throw e) => (s', Some e)
    end.

(** The [trim] and [lowercase] setters of a String path, applied to every
    value assigned to it. *)
Definition setTrim (v : option jsstring) : option jsstring := option_map trim v.

Definition setLowerTrim (v : option jsstring) : option jsstring :=
  option_map (fun s => trim (toLowerCase s)) v.

(** The [required] validator of a String path. *)
Definition requiredString (v : option jsstring) : bool :=
  match v with
  | Some (_ :: _) => true
  | _ => false
  end.

Definition opt_eqb (a b : option jsstring) : bool :=
  match a, b with
  | Some x, Some y => jsstring_eqb x y
  | None, None => true
  | _, _ => false
  end.

End Mongoose.

Import Mongoose.

Declare Scope hook_scope.
Delimit Scope hook_scope with hook.
Notation "x <- m ;; k" := (bind m (fun x => k))
  (at level 61, m at next level, right associativity) : hook_scope.
Notation "m ;; k" := (bind m (fun _ => k))
  (at level 61, right associativity) : hook_scope.

(* ===================================================================== *)
(** ** database/event.model.ts *)
(* ===================================================================== *)

Module EventModel.

(** [IEvent].  A String field that is not set is [None]; arrays default
    to the empty array.  The timestamps, which Mongoose manages and the
    model's code never reads, are left out. *)
Record IEvent : Type := {
  _id : ObjectId;
  title : option jsstring;
  slug : option jsstring;
  description : option jsstring;
  overview : option jsstring;
  image : option jsstring;
  venue : option jsstring;
  location : option jsstring;
  date : option jsstring;
  time : option jsstring;
  mode : option jsstring;
  audience : option jsstring;
  agenda : list jsstring;
  organizer : option jsstring;
  tags : list jsstring
}.

(** The paths of [eventSchema]. *)
Inductive EventPath : Type :=
| Ptitle | Pslug | Pdescription | Poverview | Pimage | Pvenue | Plocation
| Pdate | Ptime | Pmode | Paudience | Pagenda | Porganizer | Ptags.

(** A document in memory: its fields, [isNew], and [isModified(path)]. *)
Record EventDocument : Type := {
  fields : IEvent;
  isNew : bool;
  isModified : EventPath -> bool
}.

Definition withFields (d : EventDocument) (e : IEvent) : EventDocument :=
  {| fields := e; isNew := isNew d; isModified := isModified d |}.

(** Record updates of the four fields the development assigns. *)
Definition setSlug (v : option jsstring) (e : IEvent) : IEvent :=
  {| _id := _id e; title := title e; slug := v;
     description := description e; overview := overview e;
     image := image e; venue := venue e; location := location e;
     date := date e; time := time e; mode := mode e;
     audience := audience e; agenda := agenda e;
     organizer := organizer e; tags := tags e |}.

Definition setDate (v : option jsstring) (e : IEvent) : IEvent :=
  {| _id := _id e; title := title e; slug := slug e;
     description := description e; overview := overview e;
     image := image e; venue := venue e; location := location e;
     date := v; time := time e; mode := mode e;
     audience := audience e; agenda := agenda e;
     organizer := organizer e; tags := tags e |}.

Definition setTime (v : option jsstring) (e : IEvent) : IEvent :=
  {| _id := _id e; title := title e; slug := slug e;
     description := description e; overview := overview e;
     image := image e; venue := venue e; location := location e;
     date := date e; time := v; mode := mode e;
     audience := audience e; agenda := agenda e;
     organizer := organizer e; tags := tags e |}.

Definition setVenue (v : option jsstring) (e : IEvent) : IEvent :=
  {| _id := _id e; title := title e; slug := slug e;
     description := description e; overview := overview e;
     image := image e; venue := v; location := location e;
     date := date e; time := time e; mode := mode e;
     audience := audience e; agenda := agenda e;
     organizer := organizer e; tags := tags e |}.

(** Assignments [this.slug = v], [this.date = v], [this.time = v]; each
    goes through the setters the schema declares for the path. *)
Definition assignSlug (v : jsstring) (d : EventDocument) : EventDocument :=
  withFields d (setSlug (setLowerTrim (Some v)) (fields d)).

Definition assignDate (v : jsstring) (d : EventDocument) : EventDocument :=
  withFields d (setDate (setTrim (Some v)) (fields d)).

Definition assignTime (v : jsstring) (d : EventDocument) : EventDocument :=
  withFields d (setTime (setTrim (Some v)) (fields d)).

(** [new Event(raw)] with the identifier Mongoose gives it: every value
    goes through the setters of its path, and the document is new. *)
Definition newEvent (id : ObjectId) (raw : IEvent) : EventDocument :=
  {| fields :=
       {| _id := id; title := setTrim (title raw);
          slug := setLowerTrim (slug raw);
          description := setTrim (description raw);
          overview := setTrim (overview raw); image := setTrim (image raw);
          venue := setTrim (venue raw); location := setTrim (location raw);
          date := setTrim (date raw); time := setTrim (time raw);
          mode := setTrim (mode raw); audience := setTrim (audience raw);
          agenda := agenda raw; organizer := setTrim (organizer raw);
          tags := tags raw |};
     isNew := true;
     isModified := fun _ => true |}.

Definition isVenue (p : EventPath) : bool :=
  match p with Pvenue => true | _ => false end.

(** A stored document [e] loaded into memory, followed by
    [doc.venue = v]: only [venue] is modified. *)
Definition loadAndSetVenue (e : IEvent) (v : jsstring) : EventDocument :=
  {| fields := setVenue (setTrim (Some v)) e;
     isNew := false;
     isModified := isVenue |}.

(** *** Schema validation *)

Definition modeValues : list jsstring :=
  [lit "online"; lit "offline"; lit "hybrid"].

Definition inEnum (values : list jsstring) (v : option jsstring) : bool :=
  match v with
  | Some s => existsb (jsstring_eqb s) values
  | None => true
  end.

Definition check (ok : bool) (p : EventPath) (msg : string)
  : list (EventPath * jsstring) :=
  if ok then [] else [(p, lit msg)].

(** The validators of [eventSchema], path by path; [slug] has none.  An
    array path always holds an array, which passes [required] even when it
    is empty; the schema's own validator then asks for an item. *)
Definition validate (e : IEvent) : list (EventPath * jsstring) :=
  check (requiredString (title e)) Ptitle "Event title is required"
  ++ check (requiredString (description e)) Pdescription
       "Event description is required"
  ++ check (requiredString (overview e)) Poverview "Event overview is required"
  ++ check (requiredString (image e)) Pimage "Event image is required"
  ++ check (requiredString (venue e)) Pvenue "Event venue is required"
  ++ check (requiredString (location e)) Plocation "Event location is required"
  ++ check (requiredString (date e)) Pdate "Event date is required"
  ++ check (requiredString (time e)) Ptime "Event time is required"
  ++ (if requiredString (mode e)
      then check (inEnum modeValues (mode e)) Pmode
             "Mode must be either online, offline, or hybrid"
      else check false Pmode "Event mode is required")
  ++ check (requiredString (audience e)) Paudience "Event audience is required"
  ++ check (negb (Nat.eqb (length (agenda e)) 0)) Pagenda
       "Agenda must contain at least one item"
  ++ check (requiredString (organizer e)) Porganizer
       "Event organizer is required"
  ++ check (negb (Nat.eqb (length (tags e)) 0)) Ptags
       "Tags must contain at least one item".

(** *** The three normalisers *)

(** [/[^\w\s-]/g] *)
Definition reSpecial : regex :=
  NotClass (fun c => isWord c || isWhiteSpace c || isHyphen c).

(** [/\s+/g] *)
Definition reSpaces : regex := Plus (Class isWhiteSpace).

(** [/-+/g] *)
Definition reHyphens : regex := Plus (Class isHyphen).

Definition generateSlug (title : jsstring) : jsstring :=
  replaceAll reHyphens (lit "-")
    (replaceAll reSpaces (lit "-")
       (replaceAll reSpecial []
          (trim (toLowerCase title)))).

Definition invalidDate : JsError :=
  Error (lit "Invalid date format. Please provide a valid date.").

Definition normalizeDate (h : Host) (dateString : jsstring) : Result jsstring :=
  match newDate h dateString with
  | None => Throw invalidDate
  | Some t => Ok (splitHead (isCode 84) (toISOString t))
  end.

(** [/^([01]\d|2[0-3]):([0-5]\d)$/] *)
Definition time24HourRegex : regex :=
  Cat (Alt (Cat (Class (between 48 49)) (Class isDigit))
           (Cat (Chr "2") (Class (between 48 51))))
      (Cat (Chr ":") (Cat (Class (between 48 53)) (Class isDigit))).

Definition invalidTime : JsError :=
  Error (lit "Invalid time format. Please use HH:MM format (24-hour).").

Definition normalizeTime (h : Host) (timeString : jsstring) : Result jsstring :=
  if test time24HourRegex (trim timeString) then Ok (trim timeString)
  else
    match newDate h (lit "1970-01-01 " ++ timeString) with
    | None => Throw invalidTime
    | Some dateTime =>
        let hours := pad 2 (getHours h dateTime) in
        let minutes := pad 2 (getMinutes h dateTime) in
        Ok (hours ++ lit ":" ++ minutes)
    end.

(** The same three functions on a field that may be [undefined]: calling
    a string method on [undefined] is a [TypeError], and
    [new Date(undefined)] is an invalid Date. *)
Definition notAString (method : string) : JsError :=
  TypeError (lit "Cannot read properties of undefined (reading '"
             ++ lit method ++ lit "')").

Definition generateSlug' (v : option jsstring) : Result jsstring :=
  match v with
  | Some s => Ok (generateSlug s)
  | None => Throw (notAString "toLowerCase")
  end.

Definition normalizeDate' (h : Host) (v : option jsstring) : Result jsstring :=
  match v with
  | Some s => normalizeDate h s
  | None => Throw invalidDate
  end.

Definition normalizeTime' (h : Host) (v : option jsstring) : Result jsstring :=
  match v with
  | Some s => normalizeTime h s
  | None => Throw (notAString "trim")
  end.

(** *** [eventSchema.pre('save', ...)] *)

Local Open Scope hook_scope.

Definition preSaveBody (h : Host) : Hook EventDocument unit :=
  d <- this ;;
  when (isNew d || isModified d Ptitle)
    (d <- this ;;
     s <- call (generateSlug' (title (fields d))) ;;
     assign (assignSlug s)) ;;
  d <- this ;;
  when (isNew d || isModified d Pdate)
    (d <- this ;;
     s <- call (normalizeDate' h (date (fields d))) ;;
     assign (assignDate s)) ;;
  d <- this ;;
  when (isNew d || isModified d Ptime)
    (d <- this ;;
     s <- call (normalizeTime' h (time (fields d))) ;;
     assign (assignTime s)).

Definition preSave (h : Host) : EventDocument -> EventDocument * option JsError :=
  tryNext (preSaveBody h).

(** *** The collection and [save] *)

(** The [events] collection, with its unique indexes on [_id] and, by
    [eventSchema.index({ slug: 1 }, { unique: true })], on [slug]. *)
Definition Events := list IEvent.

Definition exists_ (db : Events) (id : ObjectId) : bool :=
  existsb (fun e => oid_eqb (_id e) id) db.

(** Modelled from the spec: the document store's enforcement of the
    unique index on [slug].  The schema declares the index (the option
    [unique: true] of the path and [eventSchema.index({ slug: 1 },
    { unique: true })]); the code that refuses a second document with the
    same slug is the database's and is not among the sources.  The test
    below is the spec's "slug is unique across all Events": another
    document of the collection has the slug of [e]. *)
Definition slugTaken (db : Events) (e : IEvent) : bool :=
  existsb (fun e' => negb (oid_eqb (_id e') (_id e)) && opt_eqb (slug e') (slug e))
          db.

Definition replaceDoc (e : IEvent) (db : Events) : Events :=
  map (fun e' => if oid_eqb (_id e') (_id e) then e else e') db.

(** The write that follows the hooks: an insert for a new document, an
    update of the document with the same [_id] otherwise. *)
Definition write (db : Events) (d : EventDocument)
  : Events * option (SaveError EventPath) :=
  let e := fields d in
  if isNew d && exists_ db (_id e) then (db, Some (DuplicateKey (lit "_id")))
  else if slugTaken db e then (db, Some (DuplicateKey (lit "slug")))
  else if isNew d then (db ++ [e], None)
  else if exists_ db (_id e) then (replaceDoc e db, None)
  else (db, Some DocumentNotFound).

(** [document.save()]: validation, then the [pre('save')] hook, then the
    write.  The result is the collection afterwards, the document in
    memory afterwards, and the error the caller gets, if any. *)
Definition save (h : Host) (db : Events) (d : EventDocument)
  : Events * EventDocument * option (SaveError EventPath) :=
  match validate (fields d) with
  | (_ :: _) as errs => (db, d, Some (ValidationError errs))
  | [] =>
      match preSave h d with
      | (d', Some e) => (db, d', Some (HookError e))
      | (d', None) =>
          match write db d' with
          | (db', Some e) => (db', d', Some e)
          | (db', None) => (db', d', None)
          end
      end
  end.

(** What the two unique indexes maintain. *)
Definition indexed (db : Events) : Prop :=
  NoDup (map _id db) /\ NoDup (map slug db).

End EventModel.

Import EventModel.

(* ===================================================================== *)
(** ** database/booking.model.ts *)
(* ===================================================================== *)

Module BookingModel.

(** [IBooking], without the timestamps. *)
Record IBooking : Type := {
  _id : ObjectId;
  eventId : option ObjectId;
  email : option jsstring
}.

Inductive BookingPath : Type := PeventId | Pemail.

Record BookingDocument : Type := {
  fields : IBooking;
  isNew : bool;
  isModified : BookingPath -> bool
}.

Definition Bookings := list IBooking.

(** [new Booking({ eventId, email })]: [email] goes through its [trim]
    and [lowercase] setters. *)
Definition newBooking (id : ObjectId) (ev : option ObjectId)
           (mail : option jsstring) : BookingDocument :=
  {| fields := {| _id := id; eventId := ev; email := setLowerTrim mail |};
     isNew := true;
     isModified := fun _ => true |}.

Definition notSpaceOrAt (c : ascii) : bool := negb (isWhiteSpace c || isCode 64 c).

(** [/^[^\s@]+@[^\s@]+\.[^\s@]+$/] *)
Definition emailRegex : regex :=
  Cat (Plus (Class notSpaceOrAt))
      (Cat (Chr "@")
           (Cat (Plus (Class notSpaceOrAt))
                (Cat (Chr ".") (Plus (Class notSpaceOrAt))))).

Definition check (ok : bool) (p : BookingPath) (msg : string)
  : list (BookingPath * jsstring) :=
  if ok then [] else [(p, lit msg)].

Definition validate (b : IBooking) : list (BookingPath * jsstring) :=
  check (match eventId b with Some _ => true | None => false end) PeventId
    "Event ID is required"
  ++ match email b with
     | Some ((_ :: _) as e) =>
         check (test emailRegex e) Pemail "Please provide a valid email address"
     | _ => check false Pemail "Email is required"
     end.

(** The template literal of the hook. *)
Definition showId (v : option ObjectId) : jsstring :=
  match v with
  | Some id => id
  | None => lit "undefined"
  end.

Definition missingEvent (v : option ObjectId) : JsError :=
  Error (lit "Event with ID " ++ showId v
         ++ lit " does not exist. Cannot create booking for non-existent event.").

(** [Event.exists({ _id: this.eventId })] *)
Definition eventExists (events : Events) (v : option ObjectId) : bool :=
  match v with
  | Some id => exists_ events id
  | None => false
  end.

Local Open Scope hook_scope.

(** [bookingSchema.pre('save', ...)], over the [events] collection. *)
Definition preSaveBody (events : Events) : Hook BookingDocument unit :=
  d <- this ;;
  when (isNew d || isModified d PeventId)
    (d <- this ;;
     if eventExists events (eventId (fields d)) then ret tt
     else throw (missingEvent (eventId (fields d)))).

Definition preSave (events : Events)
  : BookingDocument -> BookingDocument * option JsError :=
  tryNext (preSaveBody events).

Definition stored (db : Bookings) (id : ObjectId) : bool :=
  existsb (fun b => oid_eqb (_id b) id) db.

Definition replaceDoc (b : IBooking) (db : Bookings) : Bookings :=
  map (fun b' => if oid_eqb (_id b') (_id b) then b else b') db.

(** The indexes of [bookingSchema] are not unique; only [_id] is. *)
Definition write (db : Bookings) (d : BookingDocument)
  : Bookings * option (SaveError BookingPath) :=
  let b := fields d in
  if isNew d then
    if stored db (_id b) then (db, Some (DuplicateKey (lit "_id")))
    else (db ++ [b], None)
  else if stored db (_id b) then (replaceDoc b db, None)
  else (db, Some DocumentNotFound).

Definition save (events : Events) (db : Bookings) (d : BookingDocument)
  : Bookings * BookingDocument * option (SaveError BookingPath) :=
  match validate (fields d) with
  | (_ :: _) as errs => (db, d, Some (ValidationError errs))
  | [] =>
      match preSave events d with
      | (d', Some e) => (db, d', Some (HookError e))
      | (d', None) =>
          match write db d' with
          | (db', Some e) => (db', d', Some e)
          | (db', None) => (db', d', None)
          end
      end
  end.

End BookingModel.

Module B := BookingModel.

(* ===================================================================== *)
(** ** The slug as the specification words it *)
(* ===================================================================== *)

Module SlugSpec.

(** A letter of A-Z or a-z, a digit, an underscore, a hyphen or
    whitespace.  The letters are the unaccented ones only: this is the
    class once "letter" is narrowed to what the code keeps. *)
Definition kept (c : ascii) : bool :=
  isLetter c || isDigit c || isCode 95 c || isHyphen c || isWhiteSpace c.

(** Stripping every character that is none of these. *)
Definition strip (s : jsstring) : jsstring := List.filter kept s.

Definition startsWith (p : ascii -> bool) (s : jsstring) : bool :=
  match s with
  | c :: _ => p c
  | [] => false
  end.

(** Collapsing each run of characters of class [p] into [rep]: the
    characters of a run are dropped and [rep] is written where it ends. *)
Fixpoint collapseRuns (p : ascii -> bool) (rep s : jsstring) : jsstring :=
  match s with
  | [] => []
  | c :: s' =>
      if p c then
        if startsWith p s' then collapseRuns p rep s'
        else rep ++ collapseRuns p rep s'
      else c :: collapseRuns p rep s'
  end.

(** Length of the run of class [p] that [s] starts with. *)
Fixpoint runLength (p : ascii -> bool) (s : jsstring) : nat :=
  match s with
  | c :: s' => if p c then S (runLength p s') else 0
  | [] => 0
  end.

Definition slugOf (title : jsstring) : jsstring :=
  collapseRuns isHyphen (lit "-")
    (collapseRuns isWhiteSpace (lit "-")
       (strip (trim (toLowerCase title)))).

(** The words "every character that is not a letter" taken at their
    word: among the code units up to U+00FF the letters are A-Z, a-z,
    the two ordinal indicators, the micro sign, and the accented letters
    U+00C0..U+00FF without the multiplication and division signs. *)
Definition isAnyLetter (c : ascii) : bool :=
  isLetter c || isCode 170 c || isCode 181 c || isCode 186 c
  || (between 192 255 c && negb (isCode 215 c) && negb (isCode 247 c)).

Definition keptAsWorded (c : ascii) : bool :=
  isAnyLetter c || isDigit c || isCode 95 c || isHyphen c || isWhiteSpace c.

Definition slugAsWorded (title : jsstring) : jsstring :=
  collapseRuns isHyphen (lit "-")
    (collapseRuns isWhiteSpace (lit "-")
       (List.filter keptAsWorded (trim (toLowerCase title)))).

(** [s] does not end with a character of class [p]. *)
Definition endsWith (p : ascii -> bool) (s : jsstring) : bool :=
  startsWith p (rev s).

(** The characters a slug is made of, and the absence of a run of
    hyphens. *)
Definition isSlugChar (c : ascii) : bool :=
  between 97 122 c || isDigit c || isCode 95 c || isHyphen c.

Fixpoint noRun (p : ascii -> bool) (s : jsstring) : bool :=
  match s with
  | [] => true
  | c :: s' => negb (p c && startsWith p s') && noRun p s'
  end.

End SlugSpec.

Import SlugSpec.

(* ===================================================================== *)
(** ** A sample host *)
(* ===================================================================== *)

Module SampleHost.

Local Open Scope Z_scope.

(** A host in the manner of Node.js, [tza] milliseconds east of UTC.  Out
    of the formats its [Date.parse] reads beyond the specified one, it is
    given three: [Month D, YYYY] and [YYYY-MM-DD h:mm], the latter also
    followed by a space and [am] or [pm], both taken as local time; and
    [YYYY-MM-DD] with a day up to 31 that its month does not have, taken
    as UTC and counted on into the next month.  Node reads other forms
    too; this host answers NaN on them. *)

Fixpoint stripPrefix (pre s : jsstring) : option jsstring :=
  match pre, s with
  | [], _ => Some s
  | a :: pre', b :: s' => if Ascii.eqb a b then stripPrefix pre' s' else None
  | _ :: _, [] => None
  end.

Fixpoint digitsOf (s : jsstring) : jsstring * jsstring :=
  match s with
  | c :: s' =>
      if isDigit c then let (ds, rest) := digitsOf s' in (c :: ds, rest)
      else ([], s)
  | [] => ([], [])
  end.

Definition monthNames : list jsstring :=
  map lit ["january"; "february"; "march"; "april"; "may"; "june"; "july";
           "august"; "september"; "october"; "november"; "december"]%string.

Fixpoint findMonth (names : list jsstring) (i : Z) (s : jsstring)
  : option (Z * jsstring) :=
  match names with
  | [] => None
  | n :: names' =>
      match stripPrefix n s with
      | Some rest => Some (i, rest)
      | None => findMonth names' (i + 1) s
      end
  end.

Definition smallNumber (ds : jsstring) : option Z :=
  match ds with
  | [_] | [_; _] => number 0 ds
  | _ => None
  end.

(** [Month D, YYYY]: the day it names. *)
Definition monthDayYear (s : jsstring) : option Z :=
  match findMonth monthNames 0 (toLowerCase s) with
  | Some (m, sp :: rest) =>
      let (ds, rest') := digitsOf rest in
      match smallNumber ds, rest' with
      | Some d, cm :: sp' :: ([_; _; _; _] as ys) =>
          match number 0 ys with
          | Some y =>
              if isCode 32 sp && isCode 44 cm && isCode 32 sp'
                 && (1 <=? d) && (d <=? 31)
              then Some (MakeDay y m d)
              else None
          | None => None
          end
      | _, _ => None
      end
  | _ => None
  end.

(** [h:mm], [h:mm am], [h:mm PM]: the time within the day.  The minutes
    must be followed by the end of the string or by a space: [am] or [pm]
    written against the minutes, as in [9:05am], makes the string
    unreadable.  Without [am] or [pm] the hour goes up to 23, and [24:00]
    is the midnight that ends the day; with one of them the hour goes up
    to 12 and is counted from midnight or from noon. *)
Definition clock (s : jsstring) : option Z :=
  let (hs, rest) := digitsOf (toLowerCase s) in
  match smallNumber hs, rest with
  | Some hh, cl :: m1 :: m2 :: suffix =>
      match number 0 [m1; m2] with
      | Some mm =>
          if isCode 58 cl && (mm <=? 59) then
            if jsstring_eqb suffix [] then
              if hh <=? 23 then Some (MakeTime hh mm 0 0)
              else if (hh =? 24) && (mm =? 0) then Some (MakeTime 24 0 0 0)
              else None
            else if jsstring_eqb suffix (lit " am") then
              if hh <=? 12
              then Some (MakeTime (hh mod 12) mm 0 0) else None
            else if jsstring_eqb suffix (lit " pm") then
              if hh <=? 12
              then Some (MakeTime (hh mod 12 + 12) mm 0 0) else None
            else None
          else None
      | None => None
      end
  | _, _ => None
  end.

(** [YYYY-MM-DD h:mm...] *)
Definition dateAndClock (s : jsstring) : option Z :=
  match parseYear s with
  | Some (y, s1) =>
      match parseMonthDay y s1 with
      | Some (m, d, sp :: s2) =>
          if isCode 32 sp then
            option_map (MakeDate (MakeDay y m d)) (clock s2)
          else None
      | _ => None
      end
  | None => None
  end.

(** [YYYY-MM-DD] with a day of at most 31: midnight UTC of that day,
    counted from the first of the month. *)
Definition overflowDate (s : jsstring) : option Z :=
  match parseYear s with
  | Some (y, [h1; m1; m2; h2; d1; d2]) =>
      match number 0 [m1; m2], number 0 [d1; d2] with
      | Some m, Some d =>
          if isHyphen h1 && isHyphen h2
             && (1 <=? m) && (m <=? 12) && (1 <=? d) && (d <=? 31)
          then Some (MakeDate (MakeDay y (m - 1) d) 0)
          else None
      | _, _ => None
      end
  | _ => None
  end.

Definition legacy (tza : Z) (s : jsstring) : option Z :=
  match monthDayYear s with
  | Some day => Some (MakeDate day 0 - tza)
  | None =>
      match dateAndClock s with
      | Some t => Some (t - tza)
      | None => overflowDate s
      end
  end.

Definition node (tza : Z) : Host :=
  {| LocalTZA := tza; parseOther := legacy tza |}.

(** UTC, East Africa Time (UTC+3) and US Eastern Standard Time (UTC-5). *)
Definition nodeUTC : Host := node 0.
Definition nodeEAT : Host := node (3 * msPerHour).
Definition nodeEST : Host := node (- 5 * msPerHour).

End SampleHost.

Import SampleHost.

(* ===================================================================== *)
(** ** Sample documents *)
(* ===================================================================== *)

Module Samples.

(** The input of [new Event({...})] for a given title: no slug, the date
    and the time already in their canonical forms. *)
Definition eventInput (t : string) : IEvent :=
  {| EventModel._id := [];
     title := Some (lit t);
     slug := None;
     description := Some (lit "A day of talks");
     overview := Some (lit "Talks and workshops");
     image := Some (lit "/images/event.png");
     venue := Some (lit "Main Hall");
     location := Some (lit "Kampala");
     date := Some (lit "2025-03-05");
     time := Some (lit "09:05");
     mode := Some (lit "hybrid");
     audience := Some (lit "Developers");
     agenda := [lit "Keynote"];
     organizer := Some (lit "Nuru");
     tags := [lit "dev"] |}.

Definition id1 : ObjectId := lit "65f000000000000000000001".
Definition id2 : ObjectId := lit "65f000000000000000000002".
Definition id3 : ObjectId := lit "65f000000000000000000003".

(** A document as stored, its fields normalised. *)
Definition storedEvent : IEvent :=
  setTime (Some (lit "09:05"))
    (setSlug (Some (lit "launch-day"))
       (fields (newEvent id1 (eventInput "Launch Day")))).


(** The same document after [doc.venue = "Side Hall"]. *)
Definition venueUpdate : EventDocument := loadAndSetVenue storedEvent (lit "Side Hall").


(** A new document whose date no parser reads. *)
Definition badDateEvent : EventDocument :=
  withFields (newEvent id2 (eventInput "Launch Day"))
    (setDate (Some (lit "someday"))
       (fields (newEvent id2 (eventInput "Launch Day")))).

Definition booking1 : B.BookingDocument :=
  B.newBooking id3 (Some id1) (Some (lit "  USER@Example.com ")).

Definition orphanBooking : B.BookingDocument :=
  B.newBooking id3 (Some id2) (Some (lit "user@example.com")).

End Samples.

Import Samples.

(* ===================================================================== *)
(** ** lib/mongodb.ts *)
(* ===================================================================== *)

Module MongoDb.

(** A [mongoose.Connection] object, by its identity. *)
Definition Connection := nat.

(** A settled promise of a connection.  Calls of [connectToDatabase] are
    taken one after the other, each run to its end, so a promise read from
    the cache has settled when it is awaited. *)
Inductive Promise : Type :=
| Resolved : Connection -> Promise
| Rejected : JsError -> Promise.

(** [global.mongoose] *)
Record Cache : Type := {
  conn : option Connection;
  promise : option Promise
}.

Definition emptyCache : Cache := {| conn := None; promise := None |}.

(** What the module does to the outside: a call of [mongoose.connect] with
    its URI and the option [bufferCommands], and the two console lines. *)
Inductive Effect : Type :=
| Connect : jsstring -> bool -> Effect
| LogConnected : Effect
| LogConnectionError : JsError -> Effect.

(** The outside: how many times [mongoose.connect] was called, and the
    effects so far, oldest first. *)
Record World : Type := {
  attempts : nat;
  trace : list Effect
}.

Definition emit (fx : list Effect) (w : World) : World :=
  {| attempts := attempts w; trace := trace w ++ fx |}.

Definition attempt (w : World) : World :=
  {| attempts := S (attempts w); trace := trace w |}.

Definition missingUri : JsError :=
  Error (lit "Please define the MONGODB_URI environment variable inside .env.local").

(** The top level of the module, given [process.env.MONGODB_URI] and
    [global.mongoose]: an unset or empty URI throws; the cache is the global
    one when there is one, a fresh one otherwise. *)
Definition loadModule (env : option jsstring) (global : option Cache)
  : Result (jsstring * Cache) :=
  match env with
  | Some ((_ :: _) as uri) =>
      Ok (uri, match global with
               | Some cached => cached
               | None => emptyCache
               end)
  | _ => Throw missingUri
  end.

(** [connectToDatabase()].  [server n] is what the call number [n] of
    [mongoose.connect] comes to. *)
Definition connectToDatabase (server : nat -> Result Connection)
           (uri : jsstring) (st : Cache * World)
  : (Cache * World) * Result Connection :=
  let (cached, w) := st in
  match conn cached with
  | Some c => (st, Ok c)
  | None =>
      let '(awaited, cached1, w1) :=
        match promise cached with
        | Some p => (p, cached, w)
        | None =>
            let w' := emit [Connect uri false] (attempt w) in
            match server (attempts w) with
            | Ok c =>
                (Resolved c,
                 {| conn := conn cached; promise := Some (Resolved c) |},
                 emit [LogConnected] w')
            | Throw e =>
                (Rejected e,
                 {| conn := conn cached; promise := None |},
                 emit [LogConnectionError e] w')
            end
        end in
      match awaited with
      | Resolved c =>
          (({| conn := Some c; promise := promise cached1 |}, w1), Ok c)
      | Rejected e =>
          (({| conn := conn cached1; promise := None |}, w1), Throw e)
      end
  end.

(** [n] calls in a row: the state they leave and what each returned. *)
Fixpoint calls (n : nat) (server : nat -> Result Connection) (uri : jsstring)
         (st : Cache * World)
  : (Cache * World) * list (Result Connection) :=
  match n with
  | O => (st, [])
  | S n' =>
      let (st1, r) := connectToDatabase server uri st in
      let (st2, rs) := calls n' server uri st1 in
      (st2, r :: rs)
  end.


End MongoDb.

Import MongoDb.

(* ===================================================================== *)
(** ** More sample data *)
(* ===================================================================== *)

Module MoreSamples.

(** A booking as stored, for an event that is not in the collection, and
    the same booking loaded and given another email. *)
Definition storedBooking : B.IBooking :=
  {| B._id := id3; B.eventId := Some id2;
     B.email := Some (lit "old@example.com") |}.

Definition emailUpdate : B.BookingDocument :=
  {| B.fields :=
       {| B._id := id3; B.eventId := Some id2;
          B.email := Some (lit "new@example.com") |};
     B.isNew := false;
     B.isModified :=
       fun p => match p with B.Pemail => true | B.PeventId => false end |}.

(** A second booking of the same event by the same email. *)
Definition booking1Again : B.BookingDocument :=
  {| B.fields :=
       {| B._id := id2; B.eventId := B.eventId (B.fields booking1);
          B.email := B.email (B.fields booking1) |};
     B.isNew := true;
     B.isModified := B.isModified booking1 |}.

(** A server that refuses the first two connections and then gives
    connection 7. *)
Definition flaky (n : nat) : Result Connection :=
  if Nat.ltb n 2 then Throw (Error (lit "ECONNREFUSED")) else Ok 7.

Definition mongoUri : jsstring := lit "mongodb://localhost:27017/events".

Definition freshWorld : World := {| attempts := 0; trace := [] |}.

(** The title "Caf" followed by e with an acute accent (U+00E9). *)
Definition cafe : jsstring := lit "Caf" ++ ["233"%char].

(** An input whose date and time are written loosely. *)
Definition looseInput : IEvent :=
  setTime (Some (lit "2:30 PM"))
    (setDate (Some (lit "March 5, 2025")) (eventInput "Launch Day")).

(** The stored event loaded and given the title "Launch Week!". *)
Definition titleUpdate : EventDocument :=
  {| fields :=
       {| EventModel._id := EventModel._id storedEvent;
          title := setTrim (Some (lit "Launch Week!"));
          slug := slug storedEvent;
          description := description storedEvent;
          overview := overview storedEvent;
          image := image storedEvent; venue := venue storedEvent;
          location := location storedEvent;
          date := date storedEvent; time := time storedEvent;
          mode := mode storedEvent; audience := audience storedEvent;
          agenda := agenda storedEvent;
          organizer := organizer storedEvent; tags := tags storedEvent |};
     isNew := false;
     isModified := fun p => match p with Ptitle => true | _ => false end |}.

End MoreSamples.

Import MoreSamples.

(* ===================================================================== *)
(** ** Proof tactics *)
(* ===================================================================== *)

(** A property of all 256 code units is settled by enumeration. *)
Ltac each_char c :=
  destruct c as [[] [] [] [] [] [] [] []]; vm_compute; try reflexivity;
  try discriminate; auto.

(** Unfold a hook into its branches and split on every test and every
    call that may throw. *)
Ltac hook_unfold :=
  unfold preSave, BookingModel.preSave, tryNext, preSaveBody,
    BookingModel.preSaveBody, bind, this, when, assign, call, ret, throw.

Ltac hook_split_with tac :=
  repeat (repeat (simpl; progress tac); simpl;
          match goal with
          | |- context [if ?b then _ else _] => destruct b eqn:?
          | |- context [match ?r with Ok _ => _ | Throw _ => _ end] =>
              destruct r eqn:?
          end);
  repeat (simpl; progress tac); simpl.

Ltac hook_split := hook_split_with idtac.

(** Evaluate the month table at literal arguments, and split on the month. *)
Ltac table :=
  cbv iota in *;
  repeat match goal with
    | H : context [daysBeforeMonth ?l ?m] |- _ =>
        let v := eval vm_compute in (daysBeforeMonth l m) in
        change (daysBeforeMonth l m) with v in H
    | |- context [daysBeforeMonth ?l ?m] =>
        let v := eval vm_compute in (daysBeforeMonth l m) in
        change (daysBeforeMonth l m) with v
    | H : context [Z.eqb ?a ?b] |- _ =>
        let v := eval vm_compute in (Z.eqb a b) in
        change (Z.eqb a b) with v in H; cbv iota in H
    end.

Ltac month_cases m :=
  let C := fresh "C" in
  assert (m = 0 \/ m = 1 \/ m = 2 \/ m = 3 \/ m = 4 \/ m = 5 \/ m = 6 \/ m = 7
          \/ m = 8 \/ m = 9 \/ m = 10 \/ m = 11)%Z as C by lia;
  repeat (destruct C as [C | C]); subst m.

(* ===================================================================== *)
(** * Properties *)
(* ===================================================================== *)

(** ** Characters *)

Lemma lowerChar_idem c : lowerChar (lowerChar c) = lowerChar c.
Proof. each_char c. Qed.

Lemma lowerChar_space c : isWhiteSpace (lowerChar c) = isWhiteSpace c.
Proof. each_char c. Qed.

Lemma lowerChar_slug c : isSlugChar c = true -> lowerChar c = c.
Proof. each_char c. Qed.

Lemma kept_lower_slug c :
  kept (lowerChar c) = true -> isWhiteSpace (lowerChar c) = false ->
  isSlugChar (lowerChar c) = true.
Proof. each_char c. Qed.

Lemma slug_not_space c : isSlugChar c = true -> isWhiteSpace c = false.
Proof. each_char c. Qed.

Lemma slug_kept c : isSlugChar c = true -> kept c = true.
Proof. each_char c. Qed.

Lemma hyphen_is c : isHyphen c = true -> c = "-"%char.
Proof. each_char c. Qed.

Lemma kept_class c : kept c = isWord c || isWhiteSpace c || isHyphen c.
Proof. each_char c. Qed.

(** ** Regular expressions: the matcher computes the denotation *)

Section RegexTheory.

Lemma matches_nil_nullable r : matches r [] -> nullable r = true.
Proof.
  intros H. remember (@nil ascii) as s eqn:Es.
  induction H; simpl; try reflexivity; try discriminate.
  - apply app_eq_nil in Es as [-> ->].
    rewrite IHmatches1, IHmatches2; auto.
  - rewrite IHmatches; auto.
  - rewrite IHmatches; auto using orb_true_r.
Qed.

Lemma nullable_matches_nil r : nullable r = true -> matches r [].
Proof.
  induction r; simpl; intros H; try discriminate.
  - constructor.
  - apply andb_true_iff in H as [H1 H2].
    change (@nil ascii) with (@nil ascii ++ []). constructor; auto.
  - apply orb_true_iff in H as [H | H]; [apply MAltL | apply MAltR]; auto.
  - constructor.
Qed.

Lemma deriv_sound c r : forall s, matches (deriv c r) s -> matches r (c :: s).
Proof.
  induction r; simpl; intros s H.
  - inversion H.
  - inversion H.
  - destruct (b c) eqn:E; inversion H; subst. constructor; exact E.
  - destruct (nullable r1) eqn:E.
    + inversion H; subst.
      * match goal with M : matches (Cat _ _) _ |- _ => inversion M; subst end.
        change (c :: s1 ++ s2) with ((c :: s1) ++ s2). constructor; auto.
      * change (c :: s) with ([] ++ c :: s).
        constructor; auto using nullable_matches_nil.
    + inversion H; subst.
      change (c :: s1 ++ s2) with ((c :: s1) ++ s2). constructor; auto.
  - inversion H; subst; [apply MAltL | apply MAltR]; auto.
  - inversion H; subst.
    change (c :: s1 ++ s2) with ((c :: s1) ++ s2). constructor; auto.
Qed.

Lemma deriv_complete c r s : matches r (c :: s) -> matches (deriv c r) s.
Proof.
  intros H. remember (c :: s) as cs eqn:E. revert s E.
  induction H as [| p c0 Hp | a b s1 s2 H1 IH1 H2 IH2 | a b s0 H0 IH0
                  | a b s0 H0 IH0 | a | a s1 s2 H1 IH1 H2 IH2];
    intros t E; simpl; try discriminate.
  - injection E as -> <-. rewrite Hp. constructor.
  - destruct s1 as [| c1 s1'].
    + simpl in E. subst s2.
      rewrite (matches_nil_nullable a H1). apply MAltR. auto.
    + simpl in E. injection E as -> <-.
      destruct (nullable a); [apply MAltL |]; constructor; auto.
  - apply MAltL; auto.
  - apply MAltR; auto.
  - destruct s1 as [| c1 s1'].
    + simpl in E. auto.
    + simpl in E. injection E as -> <-. constructor; auto.
Qed.

Lemma test_matches r s : test r s = true <-> matches r s.
Proof.
  revert r. induction s as [| c s IH]; intros r; simpl.
  - split; [apply nullable_matches_nil | apply matches_nil_nullable].
  - rewrite IH. split; [apply deriv_sound | apply deriv_complete].
Qed.

Lemma matches_class p s :
  matches (Class p) s <-> exists c, s = [c] /\ p c = true.
Proof.
  split.
  - intros H. inversion H; subst. eauto.
  - intros (c & -> & H). constructor; auto.
Qed.

Lemma matches_star_class p s :
  matches (Star (Class p)) s <-> forallb p s = true.
Proof.
  split.
  - intros H. remember (Star (Class p)) as r eqn:E.
    induction H; try discriminate; auto.
    injection E as ->. inversion H; subst. simpl.
    rewrite IHmatches2; auto.
    match goal with Hp : p _ = true |- _ => rewrite Hp end. reflexivity.
  - induction s as [| c s IH]; simpl; intros H.
    + constructor.
    + apply andb_true_iff in H as [H1 H2].
      change (c :: s) with ([c] ++ s). constructor; auto. constructor; auto.
Qed.

Lemma matches_plus_class p s :
  matches (Plus (Class p)) s <-> s <> [] /\ forallb p s = true.
Proof.
  unfold Plus. split.
  - intros H. inversion H; subst.
    match goal with M : matches (Class _) _ |- _ => inversion M; subst end.
    split; [discriminate |]. simpl.
    match goal with Hp : p _ = true |- _ => rewrite Hp end.
    apply matches_star_class; auto.
  - intros [Hne H]. destruct s as [| c s]; [congruence |].
    simpl in H. apply andb_true_iff in H as [H1 H2].
    change (c :: s) with ([c] ++ s). constructor.
    + constructor; auto.
    + apply matches_star_class; auto.
Qed.

Lemma longest_none r : forall s m,
  longest r s = None -> m <= length s -> ~ matches r (firstn m s).
Proof.
  intros s. revert r. induction s as [| d s IH]; intros r m; simpl.
  - destruct (nullable r) eqn:E; [discriminate |].
    intros _ Hle Hc. assert (m = 0) by lia. subst. simpl in Hc.
    apply matches_nil_nullable in Hc. congruence.
  - destruct (longest (deriv d r) s) eqn:El; [discriminate |].
    destruct (nullable r) eqn:E; [discriminate |].
    intros _ Hle Hc. destruct m as [| m].
    + simpl in Hc. apply matches_nil_nullable in Hc. congruence.
    + simpl in Hc. apply deriv_complete in Hc.
      apply (IH _ m El); auto. lia.
Qed.

(** [longest] returns the length of a matched prefix, and no longer prefix
    is matched. *)
Lemma longest_some r : forall s n,
  longest r s = Some n ->
  n <= length s /\ matches r (firstn n s) /\
  (forall m, n < m -> m <= length s -> ~ matches r (firstn m s)).
Proof.
  intros s. revert r. induction s as [| c s IH]; intros r n; simpl.
  - destruct (nullable r) eqn:E; [| discriminate].
    intros [= <-]. split; [lia |]. split.
    + apply nullable_matches_nil; auto.
    + intros m Hm Hle. lia.
  - destruct (longest (deriv c r) s) as [k |] eqn:El.
    + intros [= <-]. destruct (IH _ _ El) as (Hk & Hm & Hmax).
      split; [lia |]. split.
      * simpl. apply deriv_sound; auto.
      * intros m Hlt Hle. destruct m as [| m]; [lia |]. simpl.
        intros Hc. apply deriv_complete in Hc.
        apply (Hmax m); auto; lia.
    + destruct (nullable r) eqn:E; [| discriminate].
      intros [= <-]. split; [lia |]. split.
      * apply nullable_matches_nil; auto.
      * intros m Hlt Hle. destruct m as [| m]; [lia |]. simpl.
        intros Hc. apply deriv_complete in Hc.
        apply (longest_none _ _ m El); auto. lia.
Qed.

End RegexTheory.

(** ** [replace] with the patterns of [generateSlug] *)

Section ReplaceTheory.

Lemma replaceFrom_cons fuel r rep c s :
  replaceFrom (S fuel) r rep (c :: s) =
  match longest r (c :: s) with
  | Some (S n) => rep ++ replaceFrom fuel r rep (skipn n s)
  | Some O => rep ++ c :: replaceFrom fuel r rep s
  | None => c :: replaceFrom fuel r rep s
  end.
Proof. reflexivity. Qed.

Lemma longest_void s : longest Void s = None.
Proof. induction s as [| c s IH]; simpl; [| rewrite IH]; reflexivity. Qed.

Lemma longest_eps s : longest Eps s = Some 0.
Proof. destruct s; simpl; [| rewrite longest_void]; reflexivity. Qed.

Lemma longest_class q c s :
  longest (Class q) (c :: s) = if q c then Some 1 else None.
Proof.
  simpl. destruct (q c); [rewrite longest_eps | rewrite longest_void];
    reflexivity.
Qed.

(** Replacing every character of a class by the empty string filters the
    class out. *)
Lemma replace_class q s : forall fuel,
  length s < fuel ->
  replaceFrom fuel (Class q) [] s = List.filter (fun c => negb (q c)) s.
Proof.
  induction s as [| c s IH]; intros fuel Hf;
    (destruct fuel as [| fuel]; [simpl in Hf; lia |]).
  - reflexivity.
  - rewrite replaceFrom_cons, longest_class. simpl in Hf. simpl.
    destruct (q c); simpl; rewrite IH by lia; reflexivity.
Qed.

Lemma runLength_le p s : runLength p s <= length s.
Proof. induction s as [| c s IH]; simpl; [| destruct (p c); simpl]; lia. Qed.

Lemma forallb_firstn_run p s : forall n,
  n <= length s -> (forallb p (firstn n s) = true <-> n <= runLength p s).
Proof.
  induction s as [| c s IH]; intros n Hn; simpl in *.
  - assert (n = 0) by lia. subst. simpl. split; auto.
  - destruct n as [| n]; simpl.
    + split; [lia | reflexivity].
    + destruct (p c); simpl.
      * rewrite IH by lia. lia.
      * split; [discriminate | lia].
Qed.

Lemma firstn_nonempty (s : jsstring) n :
  0 < n -> n <= length s -> firstn n s <> [].
Proof.
  destruct n, s; simpl; intros; try lia; discriminate.
Qed.

Lemma longest_plus_class p s :
  longest (Plus (Class p)) s =
  match runLength p s with
  | 0 => None
  | n => Some n
  end.
Proof.
  pose proof (runLength_le p s) as Hle.
  destruct (longest (Plus (Class p)) s) as [n |] eqn:El.
  - apply longest_some in El as (Hn & Hm & Hmax).
    apply matches_plus_class in Hm as [Hne Hall].
    apply forallb_firstn_run in Hall; auto.
    assert (n <> 0) by (intros ->; apply Hne; reflexivity).
    assert (~ n < runLength p s).
    { intros Hlt. apply (Hmax (runLength p s)); auto.
      apply matches_plus_class. split.
      - apply firstn_nonempty; lia.
      - apply forallb_firstn_run; auto. }
    assert (runLength p s = n) as -> by lia.
    destruct n; [congruence | reflexivity].
  - destruct (runLength p s) as [| k] eqn:Ek; [reflexivity |].
    exfalso. apply (longest_none _ _ (S k) El); [lia |].
    apply matches_plus_class. split.
    + apply firstn_nonempty; lia.
    + apply forallb_firstn_run; lia.
Qed.

Lemma collapseRuns_run p rep c s :
  p c = true ->
  collapseRuns p rep (c :: s) =
  rep ++ collapseRuns p rep (skipn (runLength p s) s).
Proof.
  revert c. induction s as [| d s IH]; intros c Hc.
  - simpl. rewrite Hc. reflexivity.
  - change (collapseRuns p rep (c :: d :: s))
      with (if p c then
              if p d then collapseRuns p rep (d :: s)
              else rep ++ collapseRuns p rep (d :: s)
            else c :: collapseRuns p rep (d :: s)).
    rewrite Hc. simpl runLength. destruct (p d) eqn:Ed.
    + rewrite IH by exact Ed. reflexivity.
    + reflexivity.
Qed.

(** Replacing every match of [p+] by [rep] collapses each run of [p]. *)
Lemma replace_plus_class p rep : forall fuel s,
  length s < fuel ->
  replaceFrom fuel (Plus (Class p)) rep s = collapseRuns p rep s.
Proof.
  induction fuel as [| fuel IH]; intros s Hf; [lia |].
  destruct s as [| c s]; [reflexivity |].
  rewrite replaceFrom_cons, longest_plus_class. simpl in Hf.
  simpl runLength. destruct (p c) eqn:Ec.
  - rewrite collapseRuns_run by exact Ec.
    rewrite IH; [reflexivity |].
    rewrite length_skipn. lia.
  - simpl. rewrite Ec. rewrite IH by lia. reflexivity.
Qed.

(** The code of [generateSlug] computes the slug of the specification. *)
Lemma generateSlug_slugOf title : generateSlug title = slugOf title.
Proof.
  unfold generateSlug, slugOf, replaceAll, reHyphens, reSpaces, reSpecial,
    NotClass, strip.
  rewrite replace_class by lia.
  rewrite (filter_ext (fun c => negb (negb (isWord c || isWhiteSpace c || isHyphen c)))
             kept)
    by (intros c; rewrite negb_involutive; symmetry; apply kept_class).
  rewrite (replace_plus_class isWhiteSpace) by lia.
  rewrite (replace_plus_class isHyphen) by lia.
  reflexivity.
Qed.

End ReplaceTheory.

(** ** The shape of a slug *)

Section SlugTheory.

Lemma trimStart_Forall (P : ascii -> Prop) s :
  Forall P s -> Forall P (trimStart s).
Proof.
  induction 1 as [| c s Hc Hs IH]; simpl; [constructor |].
  destruct (isWhiteSpace c); auto.
Qed.

Lemma trim_Forall (P : ascii -> Prop) s : Forall P s -> Forall P (trim s).
Proof.
  intros H. unfold trim, trimEnd.
  apply Forall_rev, trimStart_Forall, Forall_rev, trimStart_Forall, H.
Qed.

Lemma trimStart_no_space s :
  Forall (fun c => isWhiteSpace c = false) s -> trimStart s = s.
Proof. destruct 1 as [| c s Hc Hs]; simpl; [| rewrite Hc]; reflexivity. Qed.

Lemma trim_no_space s :
  Forall (fun c => isWhiteSpace c = false) s -> trim s = s.
Proof.
  intros H. unfold trim, trimEnd.
  rewrite (trimStart_no_space s H).
  rewrite trimStart_no_space by (apply Forall_rev; exact H).
  apply rev_involutive.
Qed.

Lemma toLowerCase_fixed s :
  Forall (fun c => isSlugChar c = true) s -> toLowerCase s = s.
Proof.
  induction 1 as [| c s Hc Hs IH]; [reflexivity |].
  unfold toLowerCase in *. simpl.
  rewrite lowerChar_slug by exact Hc. rewrite IH. reflexivity.
Qed.

Lemma toLowerCase_lowered s :
  Forall (fun c => lowerChar c = c) (toLowerCase s).
Proof.
  induction s as [| c s IH]; simpl; constructor; auto using lowerChar_idem.
Qed.

Lemma strip_fixed s : Forall (fun c => kept c = true) s -> strip s = s.
Proof.
  induction 1 as [| c s Hc Hs IH]; [reflexivity |].
  unfold strip in *. simpl. rewrite Hc, IH. reflexivity.
Qed.

Lemma strip_Forall (P : ascii -> Prop) s :
  Forall P s -> Forall (fun c => P c /\ kept c = true) (strip s).
Proof.
  induction 1 as [| c s Hc Hs IH]; simpl; [constructor |].
  destruct (kept c) eqn:E; auto.
Qed.

(** What [collapseRuns] leaves is [rep] and the characters outside the
    class. *)
Lemma collapseRuns_Forall (Q : ascii -> Prop) p rep s :
  Forall Q rep ->
  Forall (fun c => p c = false -> Q c) s ->
  Forall Q (collapseRuns p rep s).
Proof.
  intros Hrep. induction 1 as [| c s Hc Hs IH]; simpl; [constructor |].
  destruct (p c) eqn:E.
  - destruct (startsWith p s); auto. apply Forall_app; auto.
  - constructor; auto.
Qed.

Lemma collapseRuns_none p rep s :
  Forall (fun c => p c = false) s -> collapseRuns p rep s = s.
Proof.
  induction 1 as [| c s Hc Hs IH]; simpl; [reflexivity |].
  rewrite Hc, IH. reflexivity.
Qed.

Lemma startsWith_collapseRuns p h s :
  p h = true -> startsWith p (collapseRuns p [h] s) = startsWith p s.
Proof.
  intros Hh. induction s as [| c s IH]; simpl; [reflexivity |].
  destruct (p c) eqn:E.
  - destruct (startsWith p s) eqn:Es; simpl; auto.
  - simpl. exact E.
Qed.

Lemma collapseRuns_noRun p h s :
  p h = true -> noRun p (collapseRuns p [h] s) = true.
Proof.
  intros Hh. induction s as [| c s IH]; simpl; [reflexivity |].
  destruct (p c) eqn:E.
  - destruct (startsWith p s) eqn:Es; simpl; auto.
    rewrite startsWith_collapseRuns, Es, IH by exact Hh.
    rewrite andb_false_r. reflexivity.
  - simpl. rewrite E, IH. reflexivity.
Qed.

Lemma collapseRuns_fixed p h s :
  (forall c, p c = true -> c = h) ->
  noRun p s = true -> collapseRuns p [h] s = s.
Proof.
  intros Hp. induction s as [| c s IH]; simpl; [reflexivity |].
  intros H. apply andb_true_iff in H as [H1 H2].
  destruct (p c) eqn:E.
  - simpl in H1. apply negb_true_iff in H1. rewrite H1.
    rewrite IH by exact H2. rewrite (Hp c E). reflexivity.
  - rewrite IH by exact H2. reflexivity.
Qed.

(** A slug consists of lower-case letters, digits, underscores and single
    hyphens. *)
Lemma slugOf_shape title :
  Forall (fun c => isSlugChar c = true) (slugOf title)
  /\ noRun isHyphen (slugOf title) = true.
Proof.
  unfold slugOf. split.
  - apply collapseRuns_Forall; [repeat constructor |].
    eapply Forall_impl; [intros c H _; exact H |].
    apply collapseRuns_Forall; [repeat constructor |].
    eapply Forall_impl;
      [| apply strip_Forall, trim_Forall, (toLowerCase_lowered title)].
    simpl. intros c [Hl Hk] Hs. rewrite <- Hl in *.
    apply kept_lower_slug; assumption.
  - apply (collapseRuns_noRun isHyphen "-"%char). reflexivity.
Qed.

(** Such a string is its own slug. *)
Lemma slugOf_fixed w :
  Forall (fun c => isSlugChar c = true) w ->
  noRun isHyphen w = true ->
  slugOf w = w.
Proof.
  intros Hw Hr. unfold slugOf.
  assert (Hs : Forall (fun c => isWhiteSpace c = false) w)
    by (eapply Forall_impl; [apply slug_not_space | exact Hw]).
  rewrite toLowerCase_fixed by exact Hw.
  rewrite trim_no_space by exact Hs.
  rewrite strip_fixed by (eapply Forall_impl; [apply slug_kept | exact Hw]).
  rewrite (collapseRuns_none isWhiteSpace) by exact Hs.
  apply (collapseRuns_fixed isHyphen "-"%char); [apply hyphen_is | exact Hr].
Qed.

(** The setters of the [slug] path leave a generated slug as it is. *)
Lemma setLowerTrim_slug title :
  setLowerTrim (Some (generateSlug title)) = Some (generateSlug title).
Proof.
  unfold setLowerTrim. simpl. rewrite generateSlug_slugOf.
  destruct (slugOf_shape title) as [H1 _].
  rewrite toLowerCase_fixed by exact H1.
  rewrite trim_no_space; [reflexivity |].
  eapply Forall_impl; [apply slug_not_space | exact H1].
Qed.

(** What [trim] leaves: the string between the longest whitespace prefix
    and the longest whitespace suffix. *)
Lemma trimStart_split s :
  exists l,
    s = l ++ trimStart s
    /\ forallb isWhiteSpace l = true
    /\ startsWith isWhiteSpace (trimStart s) = false.
Proof.
  induction s as [| c s (l & Hl & Hws & Hst)]; simpl.
  - exists []. repeat split.
  - destruct (isWhiteSpace c) eqn:E.
    + exists (c :: l). simpl. rewrite E, Hws. split; [| split]; auto.
      f_equal. exact Hl.
    + exists []. simpl. auto.
Qed.

Lemma trim_split s :
  exists l r,
    s = l ++ trim s ++ r
    /\ forallb isWhiteSpace l = true
    /\ forallb isWhiteSpace r = true
    /\ startsWith isWhiteSpace (trim s) = false
    /\ endsWith isWhiteSpace (trim s) = false.
Proof.
  destruct (trimStart_split s) as (l & Hl & Hlws & Hst).
  destruct (trimStart_split (rev (trimStart s))) as (r & Hr & Hrws & Hen).
  assert (Hu : trimStart s = trim s ++ rev r).
  { unfold trim, trimEnd. rewrite <- rev_app_distr, <- Hr.
    symmetry. apply rev_involutive. }
  exists l, (rev r). split; [| split; [| split; [| split]]].
  - rewrite <- Hu. exact Hl.
  - exact Hlws.
  - rewrite forallb_forall in *. intros x Hx. apply Hrws, in_rev, Hx.
  - rewrite Hu in Hst. destruct (trim s); [reflexivity | exact Hst].
  - unfold endsWith, trim, trimEnd. rewrite rev_involutive. exact Hen.
Qed.

End SlugTheory.

(** ** The [pre('save')] hook of the Event model *)

Section EventHook.

Variable h : Host.

Lemma preSave_id d : _id (fields (fst (preSave h d))) = _id (fields d).
Proof. hook_unfold. simpl. hook_split; reflexivity. Qed.

Lemma preSave_isNew d : isNew (fst (preSave h d)) = isNew d.
Proof. hook_unfold. simpl. hook_split; reflexivity. Qed.

Lemma preSave_title d : title (fields (fst (preSave h d))) = title (fields d).
Proof. hook_unfold. simpl. hook_split; reflexivity. Qed.

Lemma preSave_slug_frame d :
  isNew d = false -> isModified d Ptitle = false ->
  slug (fields (fst (preSave h d))) = slug (fields d).
Proof.
  intros Hn Hm. hook_unfold.
  hook_split_with ltac:(rewrite ?Hn, ?Hm); reflexivity.
Qed.

Lemma preSave_date_frame d :
  isNew d = false -> isModified d Pdate = false ->
  date (fields (fst (preSave h d))) = date (fields d).
Proof.
  intros Hn Hm. hook_unfold.
  hook_split_with ltac:(rewrite ?Hn, ?Hm); reflexivity.
Qed.

Lemma preSave_time_frame d :
  isNew d = false -> isModified d Ptime = false ->
  time (fields (fst (preSave h d))) = time (fields d).
Proof.
  intros Hn Hm. hook_unfold.
  hook_split_with ltac:(rewrite ?Hn, ?Hm); reflexivity.
Qed.

Lemma preSave_untouched d :
  isNew d = false ->
  isModified d Ptitle = false -> isModified d Pdate = false ->
  isModified d Ptime = false ->
  preSave h d = (d, None).
Proof.
  intros Hn H1 H2 H3. hook_unfold.
  hook_split_with ltac:(rewrite ?Hn, ?H1, ?H2, ?H3); reflexivity.
Qed.

(** When the hook runs the slug transformation and goes through, the slug
    in memory is the slug of the title. *)
Lemma preSave_slug_run d d' :
  isNew d || isModified d Ptitle = true -> preSave h d = (d', None) ->
  exists t, title (fields d) = Some t
            /\ slug (fields d') = Some (generateSlug t).
Proof.
  intros Hc. hook_unfold. simpl. rewrite Hc. simpl.
  destruct (title (fields d)) as [t |]; simpl; [| discriminate].
  intros H. exists t. split; [reflexivity |].
  rewrite <- (setLowerTrim_slug t).
  revert H. hook_split; intros [= <-]; reflexivity.
Qed.

Lemma preSave_slug_new d d' :
  isNew d = true -> preSave h d = (d', None) ->
  exists t, title (fields d) = Some t
            /\ slug (fields d') = Some (generateSlug t).
Proof. intros Hn. apply preSave_slug_run. rewrite Hn. reflexivity. Qed.

End EventHook.

(** ** The collection: errors leave it as it is, indexes are kept *)

Section EventStore.

Variable h : Host.



Lemma save_invalid db d :
  validate (fields d) <> [] ->
  save h db d = (db, d, Some (ValidationError (validate (fields d)))).
Proof.
  unfold save. destruct (validate (fields d)); [congruence | reflexivity].
Qed.


Lemma oid_eqb_eq a b : oid_eqb a b = true <-> a = b.
Proof.
  unfold oid_eqb, jsstring_eqb.
  destruct (list_eq_dec ascii_dec a b); split; congruence.
Qed.

Lemma opt_eqb_eq a b : opt_eqb a b = true <-> a = b.
Proof.
  destruct a, b; simpl; try (split; congruence).
  rewrite (oid_eqb_eq j j0). split; congruence.
Qed.

Lemma exists_In db id : exists_ db id = true <-> In id (map _id db).
Proof.
  unfold exists_. rewrite existsb_exists, in_map_iff.
  split; intros (e & H1 & H2).
  - apply oid_eqb_eq in H2. eauto.
  - exists e. rewrite oid_eqb_eq. auto.
Qed.

Lemma slugTaken_false db e e' :
  slugTaken db e = false -> In e' db -> slug e' = slug e -> _id e' = _id e.
Proof.
  unfold slugTaken. intros H Hin Hs.
  destruct (oid_eqb (_id e') (_id e)) eqn:E; [apply oid_eqb_eq; exact E |].
  assert (existsb (fun e' => negb (oid_eqb (_id e') (_id e))
                             && opt_eqb (slug e') (slug e)) db = true);
    [| congruence].
  apply existsb_exists. exists e'. rewrite E. simpl.
  split; [exact Hin | apply opt_eqb_eq; exact Hs].
Qed.

Lemma slugTaken_true db e e' :
  In e' db -> _id e' <> _id e -> slug e' = slug e -> slugTaken db e = true.
Proof.
  intros Hin Hid Hs. unfold slugTaken. apply existsb_exists. exists e'.
  split; [exact Hin |]. apply andb_true_iff. split.
  - apply negb_true_iff. destruct (oid_eqb (_id e') (_id e)) eqn:E; auto.
    apply oid_eqb_eq in E. congruence.
  - apply opt_eqb_eq. exact Hs.
Qed.

Lemma map_id_replaceDoc e db : map _id (replaceDoc e db) = map _id db.
Proof.
  unfold replaceDoc. induction db as [| e' db IH]; simpl; [reflexivity |].
  rewrite IH. destruct (oid_eqb (_id e') (_id e)) eqn:E; [| reflexivity].
  apply oid_eqb_eq in E. congruence.
Qed.

Lemma In_replaceDoc e db x :
  In x (replaceDoc e db) ->
  (x = e /\ In (_id e) (map _id db)) \/ (In x db /\ _id x <> _id e).
Proof.
  unfold replaceDoc. rewrite in_map_iff. intros (e' & H & Hin).
  destruct (oid_eqb (_id e') (_id e)) eqn:E.
  - left. split; [congruence |]. apply oid_eqb_eq in E. rewrite <- E.
    apply in_map. exact Hin.
  - right. subst x. split; [exact Hin |]. intros Heq.
    apply oid_eqb_eq in Heq. congruence.
Qed.

Lemma NoDup_map_eq {A B} (f : A -> B) l a b :
  NoDup (map f l) -> In a l -> In b l -> f a = f b -> a = b.
Proof.
  induction l as [| x l IH]; simpl; [tauto |].
  intros Hnd Ha Hb Hf. inversion Hnd as [| ? ? Hx Hl]; subst.
  destruct Ha as [-> | Ha], Hb as [-> | Hb]; auto.
  - exfalso. apply Hx. rewrite Hf. apply in_map. exact Hb.
  - exfalso. apply Hx. rewrite <- Hf. apply in_map. exact Ha.
Qed.

Lemma save_ok_inv db d db' d' :
  save h db d = (db', d', None) ->
  validate (fields d) = [] /\ preSave h d = (d', None)
  /\ write db d' = (db', None).
Proof.
  unfold save. destruct (validate (fields d)); [| discriminate].
  destruct (preSave h d) as [d1 [e1 |]]; [discriminate |].
  destruct (write db d1) as [db1 [e1 |]] eqn:Ew; [discriminate |].
  intros [= <- <-]. auto.
Qed.

Lemma NoDup_snoc {A} (l : list A) x : NoDup l -> ~ In x l -> NoDup (l ++ [x]).
Proof.
  induction 1 as [| y l Hy Hl IH]; simpl; intros Hx.
  - constructor; [tauto | constructor].
  - constructor.
    + rewrite in_app_iff. simpl. intros [H | [H | []]]; subst; tauto.
    + apply IH. tauto.
Qed.

Lemma replaceDoc_absent e db :
  ~ In (_id e) (map _id db) -> replaceDoc e db = db.
Proof.
  unfold replaceDoc. induction db as [| x db IH]; simpl; [reflexivity |].
  intros H. rewrite IH by tauto.
  destruct (oid_eqb (_id x) (_id e)) eqn:E; [| reflexivity].
  apply oid_eqb_eq in E. tauto.
Qed.

Lemma replaceDoc_slugs e db :
  NoDup (map _id db) -> NoDup (map slug db) -> slugTaken db e = false ->
  NoDup (map slug (replaceDoc e db)).
Proof.
  induction db as [| x db IH]; simpl; intros Hid Hsl Ht; [constructor |].
  inversion Hid as [| ? ? Hx Hid']; subst.
  inversion Hsl as [| ? ? Hs Hsl']; subst.
  apply orb_false_iff in Ht as [Hhead Htail].
  destruct (oid_eqb (_id x) (_id e)) eqn:E.
  - apply oid_eqb_eq in E. rewrite E in Hx.
    fold (replaceDoc e db). rewrite replaceDoc_absent by exact Hx.
    constructor; [| exact Hsl'].
    rewrite in_map_iff. intros (y & Hy & Hin).
    apply Hx. rewrite <- (slugTaken_false db e y Htail Hin Hy).
    apply in_map. exact Hin.
  - fold (replaceDoc e db). constructor; [| apply IH; assumption].
    rewrite in_map_iff. intros (y & Hy & Hin).
    apply In_replaceDoc in Hin as [[-> _] | [Hin _]].
    + simpl in Hhead. rewrite (proj2 (opt_eqb_eq (slug x) (slug e))) in Hhead
        by (symmetry; exact Hy).
      discriminate.
    + apply Hs. rewrite <- Hy. apply in_map. exact Hin.
Qed.

Lemma write_indexed db d db' r :
  indexed db -> write db d = (db', r) -> indexed db'.
Proof.
  intros [Hid Hsl]. unfold write.
  destruct (isNew d && exists_ db (_id (fields d))) eqn:E1;
    [intros [= <- _]; split; assumption |].
  destruct (slugTaken db (fields d)) eqn:E2;
    [intros [= <- _]; split; assumption |].
  destruct (isNew d) eqn:E3.
  - simpl in E1. intros [= <- _]. unfold indexed. rewrite !map_app. simpl.
    assert (~ In (_id (fields d)) (map _id db)) as Hfresh.
    { intros Hin. apply exists_In in Hin. congruence. }
    split; apply NoDup_snoc; auto.
    rewrite in_map_iff. intros (y & Hy & Hin). apply Hfresh.
    rewrite <- (slugTaken_false db (fields d) y E2 Hin Hy).
    apply in_map. exact Hin.
  - destruct (exists_ db (_id (fields d)));
      [| intros [= <- _]; split; assumption].
    intros [= <- _]. split.
    + rewrite map_id_replaceDoc. exact Hid.
    + apply replaceDoc_slugs; assumption.
Qed.

Lemma save_indexed db d db' d' r :
  indexed db -> save h db d = (db', d', r) -> indexed db'.
Proof.
  intros Hdb. unfold save.
  destruct (validate (fields d)); [| intros [= <- _ _]; exact Hdb].
  destruct (preSave h d) as [d1 [e1 |]]; [intros [= <- _ _]; exact Hdb |].
  destruct (write db d1) as [db1 r1] eqn:Ew.
  apply write_indexed in Ew; [| exact Hdb].
  destruct r1; intros [= <- _ _]; exact Ew.
Qed.

End EventStore.

(** ** The two patterns used with [test] *)

Section Patterns.

Lemma matches_cat a b s :
  matches (Cat a b) s <->
  exists s1 s2, s = s1 ++ s2 /\ matches a s1 /\ matches b s2.
Proof.
  split.
  - intros H. inversion H; subst. eauto.
  - intros (s1 & s2 & -> & H1 & H2). constructor; auto.
Qed.

Lemma matches_alt a b s :
  matches (Alt a b) s <-> matches a s \/ matches b s.
Proof.
  split.
  - intros H. inversion H; subst; auto.
  - intros [H | H]; [apply MAltL | apply MAltR]; auto.
Qed.

Lemma matches_chr c s : matches (Chr c) s <-> s = [c].
Proof.
  unfold Chr. rewrite matches_class. split.
  - intros (c' & -> & H). apply Ascii.eqb_eq in H. subst. reflexivity.
  - intros ->. exists c. split; [reflexivity | apply Ascii.eqb_refl].
Qed.

(** [time24HourRegex] accepts exactly the strings [HH:MM] with [HH] in
    00..23 and [MM] in 00..59. *)
Lemma time24_shape s :
  test time24HourRegex s = true <->
  exists a b c d,
    s = [a; b; ":"%char; c; d]
    /\ ((between 48 49 a = true /\ isDigit b = true)
        \/ (a = "2"%char /\ between 48 51 b = true))
    /\ between 48 53 c = true /\ isDigit d = true.
Proof.
  rewrite test_matches. unfold time24HourRegex.
  rewrite matches_cat. split.
  - intros (s1 & s2 & -> & H1 & H2).
    apply matches_cat in H2 as (t1 & t2 & -> & Hc & H2).
    apply matches_chr in Hc as ->.
    apply matches_cat in H2 as (u1 & u2 & -> & Hu1 & Hu2).
    apply matches_class in Hu1 as (c & -> & Hc).
    apply matches_class in Hu2 as (d & -> & Hd).
    apply matches_alt in H1 as [H1 | H1];
      apply matches_cat in H1 as (v1 & v2 & -> & Hv1 & Hv2).
    + apply matches_class in Hv1 as (a & -> & Ha).
      apply matches_class in Hv2 as (b & -> & Hb).
      exists a, b, c, d. auto.
    + apply matches_chr in Hv1 as ->.
      apply matches_class in Hv2 as (b & -> & Hb).
      exists "2"%char, b, c, d. auto.
  - intros (a & b & c & d & -> & Hab & Hc & Hd).
    exists [a; b], [":"%char; c; d]. split; [reflexivity |]. split.
    + apply matches_alt. destruct Hab as [[Ha Hb] | [-> Hb]]; [left | right];
        apply matches_cat.
      * exists [a], [b]. rewrite !matches_class. eauto 7.
      * exists ["2"%char], [b]. rewrite matches_chr, matches_class. eauto 7.
    + apply matches_cat. exists [":"%char], [c; d].
      rewrite matches_chr, matches_cat. repeat split.
      exists [c], [d]. rewrite !matches_class. eauto 7.
Qed.

Lemma digit_not_space c : isDigit c = true -> isWhiteSpace c = false.
Proof. each_char c. Qed.

Lemma between_digit lo hi c :
  (48 <= lo)%N -> (hi <= 57)%N -> between lo hi c = true -> isDigit c = true.
Proof.
  unfold isDigit, between. intros Hlo Hhi H.
  apply andb_true_iff in H as [H1 H2].
  apply N.leb_le in H1, H2. apply andb_true_iff.
  split; apply N.leb_le; lia.
Qed.

(** A time in strict [HH:MM] form has no whitespace to trim. *)
Lemma time24_trim s : test time24HourRegex s = true -> trim s = s.
Proof.
  intros H. apply time24_shape in H
    as (a & b & c & d & -> & Hab & Hc & Hd).
  apply trim_no_space.
  assert (isDigit a = true /\ isDigit b = true) as [Ha Hb].
  { destruct Hab as [[Ha Hb] | [-> Hb]]; split; auto.
    - apply (between_digit 48 49); auto; lia.
    - apply (between_digit 48 51); auto; lia. }
  apply (between_digit 48 53) in Hc; try lia.
  repeat constructor; auto using digit_not_space.
Qed.

(** [emailRegex] accepts exactly [local@domain.rest], the three parts
    being non-empty and free of whitespace and of [@]. *)
Lemma email_shape s :
  test BookingModel.emailRegex s = true <->
  exists l d1 d2,
    s = l ++ "@"%char :: d1 ++ "."%char :: d2
    /\ l <> [] /\ d1 <> [] /\ d2 <> []
    /\ forallb BookingModel.notSpaceOrAt l = true
    /\ forallb BookingModel.notSpaceOrAt d1 = true
    /\ forallb BookingModel.notSpaceOrAt d2 = true.
Proof.
  rewrite test_matches. unfold BookingModel.emailRegex.
  rewrite matches_cat. split.
  - intros (l & s2 & -> & Hl & H2).
    apply matches_cat in H2 as (t1 & t2 & -> & Hc & H2).
    apply matches_chr in Hc as ->.
    apply matches_cat in H2 as (d1 & t3 & -> & Hd1 & H2).
    apply matches_cat in H2 as (t4 & d2 & -> & Hc & Hd2).
    apply matches_chr in Hc as ->.
    apply matches_plus_class in Hl as [? ?], Hd1 as [? ?], Hd2 as [? ?].
    exists l, d1, d2. simpl. auto 10.
  - intros (l & d1 & d2 & -> & Hl & Hd1 & Hd2 & Al & Ad1 & Ad2).
    exists l, ("@"%char :: d1 ++ "."%char :: d2).
    split; [reflexivity |]. split; [apply matches_plus_class; auto |].
    apply matches_cat. exists ["@"%char], (d1 ++ "."%char :: d2).
    split; [reflexivity |]. split; [apply matches_chr; reflexivity |].
    apply matches_cat. exists d1, ("."%char :: d2).
    split; [reflexivity |]. split; [apply matches_plus_class; auto |].
    apply matches_cat. exists ["."%char], d2.
    split; [reflexivity |]. split; [apply matches_chr; reflexivity |].
    apply matches_plus_class; auto.
Qed.

End Patterns.

(** ** Dates and times *)

Section DateTheory.

Local Open Scope Z_scope.

Lemma digitChar_digit d : 0 <= d < 10 -> isDigit (digitChar d) = true.
Proof.
  intros H.
  assert (d = 0 \/ d = 1 \/ d = 2 \/ d = 3 \/ d = 4 \/ d = 5 \/ d = 6
          \/ d = 7 \/ d = 8 \/ d = 9) as Hd by lia.
  repeat (destruct Hd as [-> | Hd]; [reflexivity |]). subst. reflexivity.
Qed.

Lemma digitsFrom_digits fuel : forall n acc,
  Forall (fun c => isDigit c = true) acc ->
  Forall (fun c => isDigit c = true) (digitsFrom fuel n acc).
Proof.
  induction fuel as [| fuel IH]; intros n acc Hacc; simpl; [exact Hacc |].
  assert (Forall (fun c => isDigit c = true) (digitChar (n mod 10) :: acc)).
  { constructor; [| exact Hacc]. apply digitChar_digit.
    apply Z.mod_pos_bound. lia. }
  destruct (n <? 10); auto.
Qed.

Lemma pad_digits w n : Forall (fun c => isDigit c = true) (pad w n).
Proof.
  unfold pad, padStart0, toString. apply Forall_app. split.
  - apply Forall_forall. intros c Hc. apply repeat_spec in Hc. subst.
    reflexivity.
  - apply digitsFrom_digits. constructor.
Qed.

Lemma splitHead_app sep a x b :
  Forall (fun c => sep c = false) a -> sep x = true ->
  splitHead sep (a ++ x :: b) = a.
Proof.
  intros Ha Hx. induction Ha as [| c a Hc Ha IH]; simpl.
  - rewrite Hx. reflexivity.
  - rewrite Hc, IH. reflexivity.
Qed.

Lemma digit_not_T c : isDigit c = true -> isCode 84 c = false.
Proof. each_char c. Qed.

Lemma digits_no_T s :
  Forall (fun c => isDigit c = true) s ->
  Forall (fun c => isCode 84 c = false) s.
Proof. apply Forall_impl. exact digit_not_T. Qed.

Lemma yearString_no_T y : Forall (fun c => isCode 84 c = false) (yearString y).
Proof.
  unfold yearString. destruct ((0 <=? y) && (y <=? 9999)).
  - apply digits_no_T, pad_digits.
  - constructor; [destruct (y <? 0); reflexivity |].
    apply digits_no_T, pad_digits.
Qed.

(** [toISOString().split('T')[0]] is the UTC calendar date. *)
Lemma toISOString_date t :
  splitHead (isCode 84) (toISOString t) = utcDate t.
Proof.
  assert (toISOString t
          = utcDate t ++ "T"%char
              :: (pad 2 (HourFromTime t) ++ lit ":" ++ pad 2 (MinFromTime t)
                  ++ lit ":" ++ pad 2 (SecFromTime t) ++ lit "."
                  ++ pad 3 (msFromTime t) ++ lit "Z")) as ->.
  { unfold toISOString, utcDate. rewrite <- !app_assoc. reflexivity. }
  apply splitHead_app; [| reflexivity].
  unfold utcDate.
  apply Forall_app; split; [apply yearString_no_T |].
  apply Forall_app; split; [repeat constructor |].
  apply Forall_app; split; [apply digits_no_T, pad_digits |].
  apply Forall_app; split; [repeat constructor |].
  apply digits_no_T, pad_digits.
Qed.

Lemma normalizeDate_utcDate h s t :
  newDate h s = Some t -> normalizeDate h s = Ok (utcDate t).
Proof.
  unfold normalizeDate. intros ->. rewrite toISOString_date. reflexivity.
Qed.

Lemma normalizeDate_invalid h s :
  newDate h s = None -> normalizeDate h s = Throw invalidDate.
Proof. unfold normalizeDate. intros ->. reflexivity. Qed.

(** The date written depends on the UTC day of the instant only. *)
Lemma utcDate_Day t t' : Day t = Day t' -> utcDate t = utcDate t'.
Proof.
  unfold utcDate, MonthFromTime, DateFromTime, DayWithinYear, InLeapYear,
    MonthFromTime, DayWithinYear, InLeapYear, YearFromTime.
  intros ->. reflexivity.
Qed.

(** A local midnight, on a host east of UTC, lies in the previous UTC
    day. *)
Lemma local_midnight_Day h day :
  0 < LocalTZA h <= msPerDay ->
  Day (UTC h (MakeDate day 0)) = Day (MakeDate (day - 1) 0).
Proof.
  unfold Day, UTC, MakeDate, msPerDay. intros H.
  rewrite Z.add_0_r, Z.add_0_r, Z.div_mul by lia.
  symmetry. apply Z.div_unique with (r := 86400000 - LocalTZA h); lia.
Qed.

Lemma local_midnight_west h day :
  - msPerDay < LocalTZA h <= 0 ->
  Day (UTC h (MakeDate day 0)) = Day (MakeDate day 0).
Proof.
  unfold Day, UTC, MakeDate, msPerDay. intros H.
  rewrite Z.add_0_r, Z.div_mul by lia.
  symmetry. apply Z.div_unique with (r := - LocalTZA h); lia.
Qed.

Lemma hour_range t : 0 <= HourFromTime t < 24.
Proof. unfold HourFromTime. apply Z.mod_pos_bound. lia. Qed.

Lemma min_range t : 0 <= MinFromTime t < 60.
Proof. unfold MinFromTime. apply Z.mod_pos_bound. lia. Qed.

(** Two zero-padded numbers in range make a strict [HH:MM]. *)
Lemma pad2_clock hh mm :
  0 <= hh < 24 -> 0 <= mm < 60 ->
  test time24HourRegex (pad 2 hh ++ lit ":" ++ pad 2 mm) = true.
Proof.
  intros Hh Hm.
  assert (forallb (fun a => forallb (fun b =>
            test time24HourRegex
              (pad 2 (Z.of_nat a) ++ lit ":" ++ pad 2 (Z.of_nat b)))
            (seq 0 60)) (seq 0 24) = true) as H
    by (vm_compute; reflexivity).
  rewrite forallb_forall in H.
  assert (In (Z.to_nat hh) (seq 0 24)) as Hin by (apply in_seq; lia).
  apply H in Hin. rewrite forallb_forall in Hin.
  assert (In (Z.to_nat mm) (seq 0 60)) as Hin' by (apply in_seq; lia).
  apply Hin in Hin'. rewrite !Z2Nat.id in Hin' by lia. exact Hin'.
Qed.

Lemma getHours_UTC h t : getHours h (UTC h t) = HourFromTime t.
Proof. unfold getHours, LocalTime, UTC. f_equal. lia. Qed.

Lemma getMinutes_UTC h t : getMinutes h (UTC h t) = MinFromTime t.
Proof. unfold getMinutes, LocalTime, UTC. f_equal. lia. Qed.

Lemma DayFromYear_step y : DayFromYear (y + 1) = DayFromYear y + DaysInYear y.
Proof.
  unfold DayFromYear, DaysInYear, isLeap.
  destruct (y mod 4 =? 0) eqn:E4; destruct (y mod 100 =? 0) eqn:E100;
    destruct (y mod 400 =? 0) eqn:E400; cbn [andb orb negb];
    rewrite ?Z.eqb_eq, ?Z.eqb_neq in *;
    Z.div_mod_to_equations; lia.
Qed.

Lemma DayFromYear_mono y1 y2 : y1 <= y2 -> DayFromYear y1 <= DayFromYear y2.
Proof. unfold DayFromYear. intros H. Z.div_mod_to_equations. lia. Qed.

Lemma YearFromTime_spec t :
  DayFromYear (YearFromTime t) <= Day t < DayFromYear (YearFromTime t + 1).
Proof.
  unfold YearFromTime. generalize (Day t). intros d.
  set (y := 1970 + d * 400 / 146097).
  assert (DayFromYear (y - 1) <= d < DayFromYear (y + 2)).
  { unfold DayFromYear, y. Z.div_mod_to_equations. lia. }
  destruct (d <? DayFromYear y) eqn:E1.
  - apply Z.ltb_lt in E1. replace (y - 1 + 1) with y by lia. lia.
  - apply Z.ltb_ge in E1. destruct (DayFromYear (y + 1) <=? d) eqn:E2.
    + apply Z.leb_le in E2. replace (y + 1 + 1) with (y + 2) by lia. lia.
    + apply Z.leb_gt in E2. lia.
Qed.

Lemma YearFromTime_unique t y :
  DayFromYear y <= Day t < DayFromYear (y + 1) -> YearFromTime t = y.
Proof.
  intros H. pose proof (YearFromTime_spec t) as S.
  destruct (Z.lt_trichotomy (YearFromTime t) y) as [L | [E | G]]; [| exact E |].
  - pose proof (DayFromYear_mono (YearFromTime t + 1) y ltac:(lia)). lia.
  - pose proof (DayFromYear_mono (y + 1) (YearFromTime t) ltac:(lia)). lia.
Qed.

Lemma daysBeforeMonth_bound y m d :
  0 <= m <= 11 -> 1 <= d <= DaysInMonth y m ->
  0 <= daysBeforeMonth (if isLeap y then 1 else 0) m + d - 1 < DaysInYear y.
Proof.
  unfold DaysInMonth, DaysInYear. intros Hm Hd.
  set (l := isLeap y) in *. clearbody l.
  destruct l; month_cases m; table; lia.
Qed.

Lemma Day_MakeDate day tm : 0 <= tm < msPerDay -> Day (MakeDate day tm) = day.
Proof.
  unfold Day, MakeDate, msPerDay. intros H.
  symmetry. apply Z.div_unique with (r := tm); lia.
Qed.

(** The date functions invert [MakeDay]. *)
Lemma civil_roundtrip y m d tm :
  0 <= m <= 11 -> 1 <= d <= DaysInMonth y m -> 0 <= tm < msPerDay ->
  YearFromTime (MakeDate (MakeDay y m d) tm) = y
  /\ MonthFromTime (MakeDate (MakeDay y m d) tm) = m
  /\ DateFromTime (MakeDate (MakeDay y m d) tm) = d.
Proof.
  intros Hm Hd Htm. set (t := MakeDate (MakeDay y m d) tm).
  pose proof (daysBeforeMonth_bound y m d Hm Hd) as Hb.
  assert (HD : Day t = MakeDay y m d) by (apply Day_MakeDate; exact Htm).
  assert (HY : YearFromTime t = y).
  { apply YearFromTime_unique. rewrite HD, DayFromYear_step.
    unfold MakeDay. lia. }
  assert (HW : DayWithinYear t
               = daysBeforeMonth (if isLeap y then 1 else 0) m + d - 1).
  { unfold DayWithinYear. rewrite HY, HD. unfold MakeDay. lia. }
  assert (HM : MonthFromTime t = m).
  { unfold MonthFromTime, InLeapYear. cbv zeta. rewrite HW, HY.
    unfold DaysInMonth in Hd. clear Hb HD HY HW t.
    set (l := isLeap y) in *. clearbody l.
    destruct l; month_cases m; table;
      repeat match goal with
        | |- context [?a <? ?b] =>
            let E := fresh in
            destruct (a <? b) eqn:E;
            [apply Z.ltb_lt in E | apply Z.ltb_ge in E]; try lia; cbv iota
        end; reflexivity. }
  split; [exact HY |]. split; [exact HM |].
  unfold DateFromTime. rewrite HM, HW. unfold InLeapYear. rewrite HY. lia.
Qed.

Lemma pad4_shape y :
  0 <= y <= 9999 ->
  exists a b c d,
    pad 4 y = [a; b; c; d] /\ isCode 43 a || isCode 45 a = false
    /\ number 0 [a; b; c; d] = Some y.
Proof.
  intros Hy.
  assert (forallb check4 (seq 0 (Z.to_nat 10000)) = true) as H
    by (vm_compute; reflexivity).
  rewrite forallb_forall in H.
  specialize (H (Z.to_nat y) ltac:(apply in_seq; lia)).
  unfold check4 in H. rewrite Z2Nat.id in H by lia.
  destruct (pad 4 y) as [| a [| b [| c [| d [| ? ?]]]]]; try discriminate.
  apply andb_true_iff in H as [H1 H2]. apply negb_true_iff in H1.
  destruct (number 0 [a; b; c; d]) as [v |] eqn:En; [| discriminate].
  apply Z.eqb_eq in H2. subst v.
  exists a, b, c, d. repeat split; auto.
Qed.

Lemma pad2_shape v :
  0 <= v <= 99 ->
  exists a b, pad 2 v = [a; b] /\ number 0 [a; b] = Some v.
Proof.
  intros Hv.
  assert (forallb check2 (seq 0 100) = true) as H by (vm_compute; reflexivity).
  rewrite forallb_forall in H.
  specialize (H (Z.to_nat v) ltac:(apply in_seq; lia)).
  unfold check2 in H. rewrite Z2Nat.id in H by lia.
  destruct (pad 2 v) as [| a [| b [| ? ?]]]; try discriminate.
  destruct (number 0 [a; b]) as [w |] eqn:En; [| discriminate].
  apply Z.eqb_eq in H. subst w.
  exists a, b. split; auto.
Qed.

Lemma DaysInMonth_le y m : 0 <= m <= 11 -> DaysInMonth y m <= 31.
Proof.
  unfold DaysInMonth. intros Hm. set (l := isLeap y). clearbody l.
  destruct (m =? 11) eqn:E; [lia |]. apply Z.eqb_neq in E.
  destruct l; month_cases m; table; lia.
Qed.

Lemma parseISO_canonical h y m d :
  validDate y m d ->
  parseISO h (canonicalDate y m d) = Some (MakeDate (MakeDay y m d) 0).
Proof.
  intros (Hy & Hm & Hd). pose proof (DaysInMonth_le y m Hm) as H31.
  destruct (pad4_shape y Hy) as (a & b & c & e & Hp4 & Hsign & Hn4).
  destruct (pad2_shape (m + 1) ltac:(lia)) as (m1 & m2 & Hpm & Hnm).
  destruct (pad2_shape d ltac:(lia)) as (d1 & d2 & Hpd & Hnd).
  unfold canonicalDate. rewrite Hp4, Hpm, Hpd.
  unfold parseISO.
  assert (parseYear ([a; b; c; e] ++ lit "-" ++ [m1; m2] ++ lit "-" ++ [d1; d2])
          = Some (y, lit "-" ++ [m1; m2] ++ lit "-" ++ [d1; d2])) as ->.
  { unfold parseYear. cbn [app]. rewrite Hsign, Hn4. reflexivity. }
  assert (parseMonthDay y (lit "-" ++ [m1; m2] ++ lit "-" ++ [d1; d2])
          = Some (m, d, [])) as ->.
  { unfold parseMonthDay. cbn [app lit list_ascii_of_string].
    change (isHyphen "-" && isHyphen "-") with true. cbv iota.
    rewrite Hnm, Hnd.
    replace (m + 1 - 1) with m by lia.
    assert ((1 <=? m + 1) && (m + 1 <=? 12) && (1 <=? d)
            && (d <=? DaysInMonth y m) = true) as ->.
    { rewrite !andb_true_iff, !Z.leb_le. lia. }
    reflexivity. }
  reflexivity.
Qed.

Lemma MakeDay_bound y m d :
  validDate y m d -> -720000 <= MakeDay y m d <= 2940000.
Proof.
  intros (Hy & Hm & Hd).
  pose proof (daysBeforeMonth_bound y m d Hm Hd) as Hb.
  unfold MakeDay, DaysInYear in *.
  assert (- 719528 <= DayFromYear y <= 2932896).
  { unfold DayFromYear. Z.div_mod_to_equations. lia. }
  destruct (isLeap y); lia.
Qed.

(** A date already in the form [YYYY-MM-DD] is returned as it is, on every
    host. *)
Lemma normalizeDate_canonical h y m d :
  validDate y m d ->
  normalizeDate h (canonicalDate y m d) = Ok (canonicalDate y m d).
Proof.
  intros Hv. pose proof Hv as (Hy & Hm & Hd).
  assert (newDate h (canonicalDate y m d) = Some (MakeDate (MakeDay y m d) 0))
    as Hnew.
  { unfold newDate, parse. rewrite (parseISO_canonical h y m d Hv).
    unfold TimeClip. pose proof (MakeDay_bound y m d Hv).
    assert ((Z.abs (MakeDate (MakeDay y m d) 0) <=? 8640000000000000) = true)
      as Hclip by (apply Z.leb_le; unfold MakeDate, msPerDay; lia).
    rewrite Hclip. reflexivity. }
  rewrite (normalizeDate_utcDate h _ _ Hnew). f_equal.
  destruct (civil_roundtrip y m d 0 Hm Hd) as (HY & HM & HD);
    [unfold msPerDay; lia |].
  unfold utcDate, canonicalDate. rewrite HY, HM, HD.
  unfold yearString.
  assert ((0 <=? y) && (y <=? 9999) = true) as ->
      by (rewrite andb_true_iff, !Z.leb_le; lia).
  reflexivity.
Qed.

(** A string read as the local midnight that begins day [day] is written as
    the day before on a host east of UTC, and as that day on a host at or
    west of UTC. *)
Lemma normalizeDate_local_midnight_east h s day :
  newDate h s = Some (UTC h (MakeDate day 0)) ->
  0 < LocalTZA h <= msPerDay ->
  normalizeDate h s = Ok (utcDate (MakeDate (day - 1) 0)).
Proof.
  intros Hn Hz. rewrite (normalizeDate_utcDate h s _ Hn). f_equal.
  apply utcDate_Day, local_midnight_Day. exact Hz.
Qed.

Lemma normalizeDate_local_midnight_west h s day :
  newDate h s = Some (UTC h (MakeDate day 0)) ->
  - msPerDay < LocalTZA h <= 0 ->
  normalizeDate h s = Ok (utcDate (MakeDate day 0)).
Proof.
  intros Hn Hz. rewrite (normalizeDate_utcDate h s _ Hn). f_equal.
  apply utcDate_Day, local_midnight_west. exact Hz.
Qed.

End DateTheory.

(** ** The Booking model *)

Section BookingTheory.

Variable events : Events.

Lemma trimStart_toLowerCase s :
  trimStart (toLowerCase s) = toLowerCase (trimStart s).
Proof.
  unfold toLowerCase. induction s as [| c s IH]; simpl; [reflexivity |].
  rewrite lowerChar_space. destruct (isWhiteSpace c); auto.
Qed.

(** The two setters commute. *)
Lemma trim_toLowerCase s : trim (toLowerCase s) = toLowerCase (trim s).
Proof.
  unfold trim, trimEnd. rewrite trimStart_toLowerCase.
  unfold toLowerCase at 1. rewrite <- map_rev.
  fold (toLowerCase (rev (trimStart s))).
  rewrite trimStart_toLowerCase. unfold toLowerCase. rewrite map_rev.
  reflexivity.
Qed.




Lemma booking_save_ok_inv db d db' d' :
  B.save events db d = (db', d', None) ->
  B.validate (B.fields d) = [] /\ B.preSave events d = (d', None)
  /\ B.write db d' = (db', None).
Proof.
  unfold B.save. destruct (B.validate (B.fields d)); [| discriminate].
  destruct (B.preSave events d) as [d1 [e1 |]]; [discriminate |].
  destruct (B.write db d1) as [db1 [e1 |]] eqn:Ew; [discriminate |].
  intros [= <- <-]. auto.
Qed.

Lemma missingEvent_inj id id' :
  B.missingEvent (Some id) = B.missingEvent (Some id') -> id = id'.
Proof.
  unfold B.missingEvent, B.showId. intros [= H].
  apply app_inv_tail in H. exact H.
Qed.

End BookingTheory.

(* ===================================================================== *)
(** * The claims *)
(* ===================================================================== *)

(** ** Slug generation *)

(** C1, as the code has it.  For every title, the slug [generateSlug]
    derives is the title lower-cased; then trimmed, that is cut down to
    what lies between its longest whitespace prefix and its longest
    whitespace suffix; then stripped of every character that is not a
    letter of a-z (or A-Z), a digit, an underscore, a hyphen or whitespace,
    so that accented letters are stripped too; then with each run of
    whitespace collapsed into a single hyphen; then with each run of
    hyphens collapsed into one.  In particular ["My Cool Event!!"], also
    with spaces around it, gives ["my-cool-event"].  That is the slug the
    hook leaves in a document that is new or whose title is modified. *)
Theorem generateSlug_pipeline :
  (forall title : jsstring,
      exists l u r : jsstring,
        toLowerCase title = l ++ u ++ r
        /\ forallb isWhiteSpace l = true
        /\ forallb isWhiteSpace r = true
        /\ startsWith isWhiteSpace u = false
        /\ endsWith isWhiteSpace u = false
        /\ generateSlug title =
           collapseRuns isHyphen (lit "-")
             (collapseRuns isWhiteSpace (lit "-") (strip u)))
  /\ generateSlug (lit "My Cool Event!!") = lit "my-cool-event"
  /\ generateSlug (lit "  My Cool Event!!  ") = lit "my-cool-event"
  /\ (forall (h : Host) (d d' : EventDocument),
         isNew d || isModified d Ptitle = true ->
         preSave h d = (d', None) ->
         exists t : jsstring,
           title (fields d) = Some t
           /\ slug (fields d')
              = Some (collapseRuns isHyphen (lit "-")
                        (collapseRuns isWhiteSpace (lit "-")
                           (strip (trim (toLowerCase t)))))).
Proof.
  split; [| split; [| split]].
  - intros title.
    destruct (trim_split (toLowerCase title))
      as (l & r & Hs & Hl & Hr & Hst & Hen).
    exists l, (trim (toLowerCase title)), r.
    repeat (split; [assumption |]). apply generateSlug_slugOf.
  - vm_compute. reflexivity.
  - vm_compute. reflexivity.
  - intros h d d' Hc Hp.
    destruct (preSave_slug_run h d d' Hc Hp) as (t & Ht & Hs).
    exists t. split; [exact Ht |]. rewrite Hs, generateSlug_slugOf.
    reflexivity.
Qed.

Lemma generateSlug_pipeline_witness :
  isNew (newEvent id1 (eventInput "  My Cool Event!!  "))
  || isModified (newEvent id1 (eventInput "  My Cool Event!!  ")) Ptitle = true
  /\ snd (preSave nodeUTC (newEvent id1 (eventInput "  My Cool Event!!  ")))
     = None
  /\ slug (fields (fst (preSave nodeUTC
                          (newEvent id1 (eventInput "  My Cool Event!!  ")))))
     = Some (lit "my-cool-event").
Proof.
  destruct generateSlug_pipeline as (_ & _ & _ & Hhook).
  split; [reflexivity |]. split; [vm_compute; reflexivity |].
  destruct (preSave nodeUTC (newEvent id1 (eventInput "  My Cool Event!!  ")))
    as [d' r] eqn:E.
  assert (r = None) as -> by (vm_compute in E; congruence).
  destruct (Hhook nodeUTC (newEvent id1 (eventInput "  My Cool Event!!  ")) d'
              eq_refl E) as (t & Ht & Hs).
  simpl. rewrite Hs. injection Ht as <-. vm_compute. reflexivity.
Defined.

(** C1 as it is worded fails on an accented letter.  The letter e with an
    acute accent is a letter, and the steps as worded keep it; the class
    [\w] of the code does not contain it, so the slug of "Caf" followed by
    that letter is ["caf"]. *)
Lemma generateSlug_accented_letter :
  isAnyLetter "233"%char = true
  /\ slugAsWorded cafe = lit "caf" ++ ["233"%char]
  /\ generateSlug cafe = lit "caf"
  /\ generateSlug cafe <> slugAsWorded cafe.
Proof.
  split; [reflexivity |]. split; [vm_compute; reflexivity |].
  split; [vm_compute; reflexivity |]. vm_compute. discriminate.
Qed.

(** C5.  Slug normalisation is idempotent: normalising the slug of a title
    again gives the same string. *)
Theorem generateSlug_idempotent :
  forall T : jsstring, generateSlug (generateSlug T) = generateSlug T.
Proof.
  intros T. rewrite !generateSlug_slugOf.
  destruct (slugOf_shape T) as [Hchars Hruns].
  apply slugOf_fixed; assumption.
Qed.

(** C10.  The title ["!!!"], which is not empty, has the empty slug; no
    validator of the schema looks at [slug]; and on every host a new Event
    with that title, its date and time in canonical form, is saved, with
    the empty string as its slug. *)
Theorem empty_slug_accepted :
  generateSlug (lit "!!!") = []
  /\ (forall (e : IEvent) (v : option jsstring),
         validate (setSlug v e) = validate e)
  /\ (forall h : Host,
       exists (e : IEvent) (d' : EventDocument),
         save h [] (newEvent id1 (eventInput "!!!")) = ([e], d', None)
         /\ requiredString (title e) = true
         /\ title e = Some (lit "!!!")
         /\ date e = Some (lit "2025-03-05")
         /\ time e = Some (lit "09:05")
         /\ slug e = Some []).
Proof.
  split; [vm_compute; reflexivity |].
  split; [intros e v; reflexivity |].
  intros h. eexists. eexists. split; [vm_compute; reflexivity |].
  repeat split.
Qed.

(** ** Date and time normalisation *)

(** C3, where the code departs from it.  On a host three hours east of UTC,
    ["March 5, 2025"] and ["2025-03-05T00:00"], both read as local midnight,
    are normalised to the day before, ["2025-03-04"]; and on any host the
    date ["+010000-01-01"], which the specified format of [Date.parse]
    accepts, is returned with its sign and six-digit year, not as
    [YYYY-MM-DD]. *)
Theorem normalizeDate_day_shift :
  normalizeDate nodeEAT (lit "March 5, 2025") = Ok (lit "2025-03-04")
  /\ normalizeDate nodeEAT (lit "2025-03-05T00:00") = Ok (lit "2025-03-04")
  /\ (forall h : Host,
         normalizeDate h (lit "+010000-01-01") = Ok (lit "+010000-01-01")).
Proof.
  split; [vm_compute; reflexivity |].
  split; [vm_compute; reflexivity |].
  intros h. vm_compute. reflexivity.
Qed.

(** Where the example does hold: on a host at UTC or west of it, and for
    a date given in the canonical form on any host. *)
Example normalizeDate_march5_utc :
  normalizeDate nodeUTC (lit "March 5, 2025") = Ok (lit "2025-03-05").
Proof. vm_compute. reflexivity. Qed.

Example normalizeDate_march5_west :
  normalizeDate nodeEST (lit "March 5, 2025") = Ok (lit "2025-03-05").
Proof. vm_compute. reflexivity. Qed.

Example normalizeDate_canonical_east :
  normalizeDate nodeEAT (lit "2025-03-05") = Ok (lit "2025-03-05").
Proof.
  apply (normalizeDate_canonical nodeEAT 2025 2 5). vm_compute.
  repeat split; discriminate.
Qed.

(** C4, as the code has it.  For every host and every time string: a
    string in strict 24-hour [HH:MM] form is returned unchanged (and one
    that is in that form once trimmed is returned trimmed); otherwise,
    when the string after ["1970-01-01 "] parses as a Date, the result is
    its local hour and minute, each zero-padded to two digits, joined by a
    colon, which is a strict [HH:MM]; otherwise the function throws the
    error whose message names the time format.  On a host in the manner
    of Node, whatever its offset from UTC, ["9:05 am"] becomes ["09:05"]
    and ["2:30 PM"] becomes ["14:30"], while ["9:05am"], with [am] written
    against the minutes, is not read and is rejected with that error. *)
Theorem normalizeTime_cases (h : Host) (s : jsstring) (tza : Z) :
  (test time24HourRegex s = true -> normalizeTime h s = Ok s)
  /\ (test time24HourRegex (trim s) = true -> normalizeTime h s = Ok (trim s))
  /\ (test time24HourRegex (trim s) = false ->
      forall t : Z,
        newDate h (lit "1970-01-01 " ++ s) = Some t ->
        normalizeTime h s
        = Ok (pad 2 (getHours h t) ++ lit ":" ++ pad 2 (getMinutes h t))
        /\ test time24HourRegex
             (pad 2 (getHours h t) ++ lit ":" ++ pad 2 (getMinutes h t)) = true)
  /\ (test time24HourRegex (trim s) = false ->
      newDate h (lit "1970-01-01 " ++ s) = None ->
      normalizeTime h s = Throw invalidTime
      /\ invalidTime
         = Error (lit "Invalid time format. Please use HH:MM format (24-hour)."))
  /\ ((- msPerDay < tza < msPerDay)%Z ->
      normalizeTime (node tza) (lit "9:05 am") = Ok (lit "09:05")
      /\ normalizeTime (node tza) (lit "2:30 PM") = Ok (lit "14:30")
      /\ normalizeTime (node tza) (lit "9:05am") = Throw invalidTime).
Proof.
  split; [| split; [| split; [| split]]].
  - intros Hs. unfold normalizeTime. rewrite (time24_trim s Hs), Hs.
    reflexivity.
  - intros Hs. unfold normalizeTime. rewrite Hs. reflexivity.
  - intros Hs t Ht. split.
    + unfold normalizeTime. rewrite Hs, Ht. reflexivity.
    + apply pad2_clock; [apply hour_range | apply min_range].
  - intros Hs Ht. split; [| reflexivity].
    unfold normalizeTime. rewrite Hs, Ht. reflexivity.
  - intros Htza.
    assert (Hread : forall (str : jsstring) (v : Z),
               parseISO (node tza) (lit "1970-01-01 " ++ str) = None ->
               monthDayYear (lit "1970-01-01 " ++ str) = None ->
               dateAndClock (lit "1970-01-01 " ++ str) = Some v ->
               (0 <= v < msPerDay)%Z ->
               newDate (node tza) (lit "1970-01-01 " ++ str)
               = Some (UTC (node tza) v)).
    { intros str v Hiso Hmdy Hdc Hv. unfold newDate, parse.
      rewrite Hiso. cbn [parseOther node]. unfold legacy.
      rewrite Hmdy, Hdc. unfold TimeClip, UTC. cbn [LocalTZA node].
      destruct (Z.leb_spec (Z.abs (v - tza)) 8640000000000000) as [_ | Hbig];
        [reflexivity |].
      unfold msPerDay in *. lia. }
    split; [| split].
    + unfold normalizeTime.
      change (test time24HourRegex (trim (lit "9:05 am"))) with false.
      cbv iota.
      rewrite (Hread (lit "9:05 am") (MakeDate 0 (MakeTime 9 5 0 0)));
        [| vm_compute; reflexivity .. | vm_compute; split; congruence].
      rewrite getHours_UTC, getMinutes_UTC. reflexivity.
    + unfold normalizeTime.
      change (test time24HourRegex (trim (lit "2:30 PM"))) with false.
      cbv iota.
      rewrite (Hread (lit "2:30 PM") (MakeDate 0 (MakeTime 14 30 0 0)));
        [| vm_compute; reflexivity .. | vm_compute; split; congruence].
      rewrite getHours_UTC, getMinutes_UTC. reflexivity.
    + unfold normalizeTime.
      change (test time24HourRegex (trim (lit "9:05am"))) with false.
      cbv iota.
      assert (newDate (node tza) (lit "1970-01-01 " ++ lit "9:05am") = None)
        as -> by (vm_compute; reflexivity).
      reflexivity.
Qed.

Lemma normalizeTime_cases_witness :
  (test time24HourRegex (lit "14:30") = true
   /\ normalizeTime nodeEAT (lit "14:30") = Ok (lit "14:30"))
  /\ (test time24HourRegex (trim (lit " 14:30 ")) = true
      /\ normalizeTime nodeEAT (lit " 14:30 ") = Ok (lit "14:30"))
  /\ (test time24HourRegex (trim (lit "7:45 pm")) = false
      /\ newDate nodeEAT (lit "1970-01-01 " ++ lit "7:45 pm") = Some 60300000%Z
      /\ normalizeTime nodeEAT (lit "7:45 pm") = Ok (lit "19:45"))
  /\ (test time24HourRegex (trim (lit "soon")) = false
      /\ newDate nodeEAT (lit "1970-01-01 " ++ lit "soon") = None
      /\ normalizeTime nodeEAT (lit "soon") = Throw invalidTime)
  /\ ((- msPerDay < 3 * msPerHour < msPerDay)%Z
      /\ normalizeTime nodeEAT (lit "9:05 am") = Ok (lit "09:05")
      /\ normalizeTime nodeEAT (lit "2:30 PM") = Ok (lit "14:30")
      /\ normalizeTime nodeEAT (lit "9:05am") = Throw invalidTime).
Proof.
  split; [| split; [| split; [| split]]].
  - split; [reflexivity |].
    destruct (normalizeTime_cases nodeEAT (lit "14:30") 0%Z) as (H & _).
    exact (H eq_refl).
  - split; [reflexivity |].
    destruct (normalizeTime_cases nodeEAT (lit " 14:30 ") 0%Z) as (_ & H & _).
    exact (H eq_refl).
  - split; [reflexivity |]. split; [vm_compute; reflexivity |].
    destruct (normalizeTime_cases nodeEAT (lit "7:45 pm") 0%Z)
      as (_ & _ & H & _).
    destruct (H eq_refl 60300000%Z) as [H1 _]; [vm_compute; reflexivity |].
    rewrite H1. vm_compute. reflexivity.
  - split; [reflexivity |]. split; [vm_compute; reflexivity |].
    destruct (normalizeTime_cases nodeEAT (lit "soon") 0%Z)
      as (_ & _ & _ & H & _).
    apply H; vm_compute; reflexivity.
  - assert (Hoff : (- msPerDay < 3 * msPerHour < msPerDay)%Z)
      by (split; reflexivity).
    split; [exact Hoff |].
    destruct (normalizeTime_cases nodeEAT [] (3 * msPerHour)%Z)
      as (_ & _ & _ & _ & H).
    exact (H Hoff).
Defined.

(** C4 as it is worded fails on its own example: a host in the manner of
    Node does not read ["1970-01-01 9:05am"], so ["9:05am"] is rejected
    and does not become ["09:05"]. *)
Lemma normalizeTime_glued_am_rejected :
  test time24HourRegex (trim (lit "9:05am")) = false
  /\ newDate nodeUTC (lit "1970-01-01 9:05am") = None
  /\ normalizeTime nodeUTC (lit "9:05am") = Throw invalidTime
  /\ normalizeTime nodeUTC (lit "9:05am") <> Ok (lit "09:05").
Proof.
  split; [reflexivity |]. split; [vm_compute; reflexivity |].
  split; [vm_compute; reflexivity |]. vm_compute. discriminate.
Qed.

(** ** The save-time hook of the Event model *)

(** C6.  On a save of a document that is not new, the hook leaves [slug]
    as it is unless [title] is modified, [date] unless [date] is modified,
    [time] unless [time] is modified, and does nothing at all when none of
    the three is; and after an update that sets only [venue] on a stored
    document, whatever its outcome, the document of that identity in the
    collection has the slug, date and time it had. *)
Theorem preSave_only_when_modified :
  (forall (h : Host) (d : EventDocument),
      isNew d = false ->
      (isModified d Ptitle = false ->
       slug (fields (fst (preSave h d))) = slug (fields d))
      /\ (isModified d Pdate = false ->
          date (fields (fst (preSave h d))) = date (fields d))
      /\ (isModified d Ptime = false ->
          time (fields (fst (preSave h d))) = time (fields d))
      /\ (isModified d Ptitle = false -> isModified d Pdate = false ->
          isModified d Ptime = false -> preSave h d = (d, None)))
  /\ (forall (h : Host) (db db' : Events) (e e' : IEvent) (v : jsstring)
             (d' : EventDocument) (r : option (SaveError EventPath)),
         In e db -> NoDup (map _id db) ->
         save h db (loadAndSetVenue e v) = (db', d', r) ->
         In e' db' -> _id e' = _id e ->
         slug e' = slug e /\ date e' = date e /\ time e' = time e).
Proof.
  split.
  - intros h d Hn. repeat split; intros.
    + apply preSave_slug_frame; assumption.
    + apply preSave_date_frame; assumption.
    + apply preSave_time_frame; assumption.
    + apply preSave_untouched; assumption.
  - intros h db db' e e' v d' r Hin Hnd Hsave Hin' Hid.
    assert (Hkeep : In e' db -> slug e' = slug e /\ date e' = date e
                                /\ time e' = time e).
    { intros H. rewrite (NoDup_map_eq _id db e' e Hnd H Hin Hid). auto. }
    revert Hsave. unfold save.
    destruct (validate (fields (loadAndSetVenue e v)));
      [| intros [= <- _ _]; auto].
    rewrite preSave_untouched by reflexivity.
    unfold write. simpl.
    destruct (slugTaken db (setVenue (Some (trim v)) e));
      [intros [= <- _ _]; auto |].
    destruct (exists_ db (_id e)); [| intros [= <- _ _]; auto].
    simpl. intros [= <- _ _].
    apply In_replaceDoc in Hin' as [[-> _] | [H _]]; auto.
Qed.

Lemma preSave_only_when_modified_witness :
  (isNew venueUpdate = false
   /\ isModified venueUpdate Ptitle = false
   /\ isModified venueUpdate Pdate = false
   /\ isModified venueUpdate Ptime = false
   /\ preSave nodeEAT venueUpdate = (venueUpdate, None))
  /\ (In storedEvent [storedEvent]
      /\ NoDup (map _id [storedEvent])
      /\ save nodeEAT [storedEvent] venueUpdate
         = ([fields venueUpdate], venueUpdate, None)
      /\ slug (fields venueUpdate) = slug storedEvent
      /\ date (fields venueUpdate) = date storedEvent
      /\ time (fields venueUpdate) = time storedEvent).
Proof.
  destruct preSave_only_when_modified as [Hhook Hsave]. split.
  - do 4 (split; [reflexivity |]).
    apply (Hhook nodeEAT venueUpdate); reflexivity.
  - assert (Hin : In storedEvent [storedEvent]) by (left; reflexivity).
    assert (Hnd : NoDup (map _id [storedEvent]))
      by (constructor; [intros [] | constructor]).
    assert (Hs : save nodeEAT [storedEvent] venueUpdate
                 = ([fields venueUpdate], venueUpdate, None))
      by (vm_compute; reflexivity).
    split; [exact Hin |]. split; [exact Hnd |]. split; [exact Hs |].
    apply (Hsave nodeEAT [storedEvent] [fields venueUpdate] storedEvent
             (fields venueUpdate) (lit "Side Hall") venueUpdate None
             Hin Hnd Hs).
    + left; reflexivity.
    + reflexivity.
Defined.


(** The hook has assigned the slug in memory when the date makes it fail;
    nothing of it reaches the collection. *)
Example save_aborts_after_slug :
  exists d' : EventDocument,
    save nodeEAT [storedEvent] badDateEvent
    = ([storedEvent], d', Some (HookError invalidDate))
    /\ slug (fields badDateEvent) = None
    /\ slug (fields d') = Some (lit "launch-day").
Proof. eexists. split; [vm_compute; reflexivity |]. split; reflexivity. Qed.


(** ** The unique index on [slug] *)

(** C8.  Whatever is saved, the documents of the collection keep pairwise
    different slugs (and identifiers).  When a new Event has been written,
    writing another new Event whose title is the same fails and leaves the
    collection as it was, first document included; the error is the
    duplicate key error of the [slug] index whenever the second document
    passes validation and the hook and its identifier is free.  So it is,
    on every host, for two Events titled ["Launch Day"].  The refusal is
    that of the unique index the schema declares on [slug], as
    [slugTaken] models the store's enforcement of it. *)
Theorem slug_unique :
  (forall (h : Host) (db db' : Events) (d d' : EventDocument)
          (r : option (SaveError EventPath)),
      indexed db -> save h db d = (db', d', r) -> indexed db')
  /\ (forall (h : Host) (db db1 : Events) (d1 d1' d2 : EventDocument),
         isNew d1 = true -> isNew d2 = true ->
         title (fields d1) = title (fields d2) ->
         _id (fields d1) <> _id (fields d2) ->
         save h db d1 = (db1, d1', None) ->
         In (fields d1') db1
         /\ exists (d2' : EventDocument) (e : SaveError EventPath),
             save h db1 d2 = (db1, d2', Some e)
             /\ (validate (fields d2) = [] -> snd (preSave h d2) = None ->
                 exists_ db1 (_id (fields d2)) = false ->
                 e = DuplicateKey (lit "slug")))
  /\ (forall h : Host,
       exists (e1 : IEvent) (d1' d2' : EventDocument),
         save h [] (newEvent id1 (eventInput "Launch Day"))
         = ([e1], d1', None)
         /\ slug e1 = Some (lit "launch-day")
         /\ save h [e1] (newEvent id2 (eventInput "Launch Day"))
            = ([e1], d2', Some (DuplicateKey (lit "slug")))).
Proof.
  split; [intros h db db' d d' r; apply save_indexed |].
  split.
  - intros h db db1 d1 d1' d2 Hn1 Hn2 Ht Hid Hs1.
    apply save_ok_inv in Hs1 as (Hv1 & Hp1 & Hw1).
    destruct (preSave_slug_new h d1 d1' Hn1 Hp1) as (t & Ht1 & Hslug1).
    assert (Hd1 : d1' = fst (preSave h d1)) by (rewrite Hp1; reflexivity).
    assert (Hin : In (fields d1') db1).
    { revert Hw1. unfold write.
      assert (isNew d1' = true) as -> by (rewrite Hd1, preSave_isNew; exact Hn1).
      destruct (exists_ db (_id (fields d1'))); simpl; [discriminate |].
      destruct (slugTaken db (fields d1')); [discriminate |].
      intros [= <-]. apply in_or_app. right. left. reflexivity. }
    split; [exact Hin |].
    unfold save. destruct (validate (fields d2)) as [| x errs] eqn:Hv2.
    + destruct (preSave h d2) as [d2' [e2 |]] eqn:Hp2.
      * exists d2', (HookError e2). split; [reflexivity |].
        simpl. discriminate.
      * destruct (preSave_slug_new h d2 d2' Hn2 Hp2) as (t' & Ht2 & Hslug2).
        assert (Hd2 : d2' = fst (preSave h d2)) by (rewrite Hp2; reflexivity).
        assert (Htaken : slugTaken db1 (fields d2') = true).
        { apply (slugTaken_true db1 (fields d2') (fields d1') Hin).
          - rewrite Hd1, Hd2, !preSave_id. exact Hid.
          - rewrite Hslug1, Hslug2. congruence. }
        unfold write. rewrite Htaken.
        assert (isNew d2' = true) as ->
            by (rewrite Hd2, preSave_isNew; exact Hn2).
        assert (_id (fields d2') = _id (fields d2)) as ->
            by (rewrite Hd2; apply preSave_id).
        simpl. destruct (exists_ db1 (_id (fields d2))) eqn:Hex.
        -- exists d2', (DuplicateKey (lit "_id")). split; [reflexivity |].
           intros _ _ H. discriminate.
        -- exists d2', (DuplicateKey (lit "slug")). split; [reflexivity |].
           reflexivity.
    + exists d2, (ValidationError (x :: errs)). split; [reflexivity |].
      discriminate.
  - intros h. do 3 eexists. split; [vm_compute; reflexivity |].
    split; [reflexivity |]. vm_compute. reflexivity.
Qed.

Lemma slug_unique_witness :
  indexed [storedEvent]
  /\ indexed (fst (fst (save nodeUTC [storedEvent] venueUpdate)))
  /\ (exists (d2' : EventDocument) (e : SaveError EventPath),
         save nodeUTC
           (fst (fst (save nodeUTC [] (newEvent id1 (eventInput "Launch Day")))))
           (newEvent id2 (eventInput "Launch Day"))
         = (fst (fst (save nodeUTC [] (newEvent id1 (eventInput "Launch Day")))),
            d2', Some e)
         /\ e = DuplicateKey (lit "slug")).
Proof.
  destruct slug_unique as (Hinv & Hdup & _).
  assert (Hi : indexed [storedEvent]).
  { split; (constructor; [intros [] | constructor]). }
  split; [exact Hi |]. split.
  - destruct (save nodeUTC [storedEvent] venueUpdate) as [[db' d'] r] eqn:E.
    simpl. exact (Hinv nodeUTC [storedEvent] db' venueUpdate d' r Hi E).
  - destruct (save nodeUTC [] (newEvent id1 (eventInput "Launch Day")))
      as [[db1 d1'] r] eqn:E.
    assert (r = None) as -> by (vm_compute in E; congruence).
    simpl.
    destruct (Hdup nodeUTC [] db1 (newEvent id1 (eventInput "Launch Day")) d1'
                (newEvent id2 (eventInput "Launch Day"))
                eq_refl eq_refl eq_refl)
      as (_ & d2' & e & Hs & He); [vm_compute; discriminate | exact E |].
    exists d2', e. split; [exact Hs |].
    assert (db1 = fst (fst (save nodeUTC [] (newEvent id1 (eventInput "Launch Day")))))
      as Hdb by (rewrite E; reflexivity).
    apply He; [reflexivity | vm_compute; reflexivity |].
    rewrite Hdb. vm_compute. reflexivity.
Defined.

(** ** The Booking model *)

(** C2.  On a Booking save with [eventId] new or modified, the hook asks
    the events collection for an Event of that identity.  If there is none,
    the hook fails with the error whose message carries the identifier (two
    identifiers never give the same message), and the save of a valid
    document is rejected with it, the collection unchanged.  If there is
    one, the hook passes, the document is as it was, and the save goes on
    to the write of that same document. *)
Theorem booking_event_check
  (events : Events) (db : B.Bookings) (d : B.BookingDocument) (id : ObjectId) :
  B.isNew d || B.isModified d B.PeventId = true ->
  B.eventId (B.fields d) = Some id ->
  (exists_ events id = false ->
   B.preSave events d = (d, Some (B.missingEvent (Some id)))
   /\ B.missingEvent (Some id)
      = Error (lit "Event with ID " ++ id
               ++ lit " does not exist. Cannot create booking for non-existent event.")
   /\ (forall id' : ObjectId,
          B.missingEvent (Some id') = B.missingEvent (Some id) -> id' = id)
   /\ (B.validate (B.fields d) = [] ->
       B.save events db d
       = (db, d, Some (HookError (B.missingEvent (Some id))))))
  /\ (exists_ events id = true ->
      B.preSave events d = (d, None)
      /\ (B.validate (B.fields d) = [] ->
          B.save events db d
          = (fst (B.write db d), d, snd (B.write db d)))).
Proof.
  intros Hc Hid. split; intros Hex.
  - assert (Hp : B.preSave events d = (d, Some (B.missingEvent (Some id)))).
    { unfold B.preSave, tryNext, B.preSaveBody, bind, this, when, throw.
      rewrite Hc, Hid. simpl. rewrite Hex. reflexivity. }
    split; [exact Hp |]. split; [reflexivity |].
    split; [intros id'; apply missingEvent_inj |].
    intros Hv. unfold B.save. rewrite Hv, Hp. reflexivity.
  - assert (Hp : B.preSave events d = (d, None)).
    { unfold B.preSave, tryNext, B.preSaveBody, bind, this, when, ret.
      rewrite Hc, Hid. simpl. rewrite Hex. reflexivity. }
    split; [exact Hp |].
    intros Hv. unfold B.save. rewrite Hv, Hp.
    destruct (B.write db d) as [db' [e |]]; reflexivity.
Qed.

Lemma booking_event_check_witness :
  (B.save [storedEvent] [] orphanBooking
   = ([], orphanBooking, Some (HookError (B.missingEvent (Some id2)))))
  /\ (B.save [storedEvent] [] booking1 = ([B.fields booking1], booking1, None)).
Proof.
  split.
  - destruct (booking_event_check [storedEvent] [] orphanBooking id2
                eq_refl eq_refl) as [H _].
    destruct (H eq_refl) as (_ & _ & _ & Hs). apply Hs. reflexivity.
  - destruct (booking_event_check [storedEvent] [] booking1 id1
                eq_refl eq_refl) as [_ H].
    destruct (H eq_refl) as (_ & Hs). rewrite Hs; reflexivity.
Defined.



(* ===================================================================== *)
(** * Further properties of the models *)
(* ===================================================================== *)

(** ** More on the slug *)

Section SlugMore.

Lemma collapseRuns_nil p rep s :
  rep <> [] -> collapseRuns p rep s = [] -> s = [].
Proof.
  intros Hrep. induction s as [| c s IH]; simpl; [reflexivity |].
  destruct (p c); [| discriminate].
  destruct (startsWith p s) eqn:Es.
  - intros H. apply IH in H. subst s. discriminate.
  - intros H. apply app_eq_nil in H as [H _]. contradiction.
Qed.

Lemma strip_nil s : strip s = [] <-> Forall (fun c => kept c = false) s.
Proof.
  unfold strip. induction s as [| c s IH]; simpl.
  - split; constructor.
  - destruct (kept c) eqn:E.
    + split; [discriminate |]. intros H. inversion H; subst. congruence.
    + rewrite IH. split; intros H; [constructor; assumption |].
      inversion H; assumption.
Qed.

Lemma toLowerCase_idem s : toLowerCase (toLowerCase s) = toLowerCase s.
Proof.
  unfold toLowerCase. rewrite map_map. apply map_ext. apply lowerChar_idem.
Qed.

Lemma trimStart_head s : startsWith isWhiteSpace (trimStart s) = false.
Proof.
  induction s as [| c s IH]; simpl; [reflexivity |].
  destruct (isWhiteSpace c) eqn:E; [exact IH | simpl; exact E].
Qed.

Lemma trimStart_id s : startsWith isWhiteSpace s = false -> trimStart s = s.
Proof. destruct s as [| c s]; simpl; [reflexivity | intros ->; reflexivity]. Qed.

Lemma trimStart_snoc l c :
  isWhiteSpace c = false -> trimStart (l ++ [c]) = trimStart l ++ [c].
Proof.
  intros Hc. induction l as [| x l IH]; simpl.
  - rewrite Hc. reflexivity.
  - destruct (isWhiteSpace x); [exact IH | reflexivity].
Qed.

Lemma trimEnd_head s :
  startsWith isWhiteSpace s = false ->
  startsWith isWhiteSpace (trimEnd s) = false.
Proof.
  unfold trimEnd. destruct s as [| c s]; simpl; [reflexivity |].
  intros Hc. rewrite trimStart_snoc by exact Hc.
  rewrite rev_app_distr. simpl. exact Hc.
Qed.

Lemma trim_idem s : trim (trim s) = trim s.
Proof.
  unfold trim at 1.
  rewrite trimStart_id
    by (unfold trim; apply trimEnd_head, trimStart_head).
  unfold trimEnd. unfold trim at 1, trimEnd. rewrite rev_involutive.
  rewrite trimStart_id by apply trimStart_head. reflexivity.
Qed.

End SlugMore.

(** X1.  A slug is made of the characters a-z, 0-9, underscore and hyphen
    only, and has no two hyphens in a row, whatever the title. *)
Theorem generateSlug_url_safe :
  forall title : jsstring,
    Forall (fun c => isSlugChar c = true) (generateSlug title)
    /\ noRun isHyphen (generateSlug title) = true.
Proof.
  intros title. rewrite generateSlug_slugOf. apply slugOf_shape.
Qed.

(** X2.  Titles that differ only in the case of their letters or in the
    whitespace around them have the same slug. *)
Theorem generateSlug_case_and_padding :
  forall title : jsstring,
    generateSlug (toLowerCase title) = generateSlug title
    /\ generateSlug (trim title) = generateSlug title.
Proof.
  intros title. unfold generateSlug. split.
  - rewrite toLowerCase_idem. reflexivity.
  - rewrite <- trim_toLowerCase, trim_idem. reflexivity.
Qed.

(** X3.  The slug is empty exactly when the title, lower-cased and trimmed,
    has no unaccented letter (A-Z, a-z), digit, underscore, hyphen or
    whitespace left in it.  Accented letters do not count: a title made
    of them alone has the empty slug. *)
Theorem generateSlug_empty_iff :
  (forall title : jsstring,
      generateSlug title = []
      <-> Forall (fun c => kept c = false) (trim (toLowerCase title)))
  /\ (forall c : ascii,
         kept c = false
         <-> between 65 90 c = false /\ between 97 122 c = false
             /\ between 48 57 c = false /\ isCode 95 c = false
             /\ isCode 45 c = false /\ isWhiteSpace c = false)
  /\ generateSlug ["201"%char; "233"%char] = [].
Proof.
  split; [| split].
  - intros title. rewrite generateSlug_slugOf. unfold slugOf.
    rewrite <- strip_nil. split.
    + intros H. apply collapseRuns_nil in H; [| discriminate].
      apply collapseRuns_nil in H; [exact H | discriminate].
    + intros ->. reflexivity.
  - intros c. unfold kept, isLetter, isDigit, isHyphen.
    rewrite !orb_false_iff. tauto.
  - vm_compute. reflexivity.
Qed.

(** X4.  Saving again a stored Event of which only the title was changed
    rewrites its slug from the new title and nothing else: date and time
    are not normalised again and the hook reports no error. *)
Theorem preSave_retitle (h : Host) (d : EventDocument) (t : jsstring) :
  isNew d = false ->
  isModified d Ptitle = true ->
  isModified d Pdate = false ->
  isModified d Ptime = false ->
  title (fields d) = Some t ->
  preSave h d
  = (withFields d (setSlug (Some (generateSlug t)) (fields d)), None).
Proof.
  intros Hn Ht Hd Htm Htitle. hook_unfold. unfold generateSlug'.
  hook_split_with ltac:(rewrite ?Hn, ?Ht, ?Hd, ?Htm, ?Htitle).
  unfold assignSlug. rewrite setLowerTrim_slug. reflexivity.
Qed.

Lemma preSave_retitle_witness :
  isNew titleUpdate = false
  /\ isModified titleUpdate Ptitle = true
  /\ slug (fields (fst (preSave nodeEAT titleUpdate)))
     = Some (lit "launch-week")
  /\ date (fields (fst (preSave nodeEAT titleUpdate))) = date storedEvent
  /\ snd (preSave nodeEAT titleUpdate) = None.
Proof.
  split; [reflexivity |]. split; [reflexivity |].
  rewrite (preSave_retitle nodeEAT titleUpdate (lit "Launch Week!")
             eq_refl eq_refl eq_refl eq_refl eq_refl).
  split; [vm_compute; reflexivity |]. split; reflexivity.
Defined.

(** ** More on times and dates *)

Section TimeMore.

Local Open Scope Z_scope.

Lemma normalizeTime_ok_strict h s r :
  normalizeTime h s = Ok r -> test time24HourRegex r = true.
Proof.
  unfold normalizeTime.
  destruct (test time24HourRegex (trim s)) eqn:E.
  - intros [= <-]. exact E.
  - destruct (newDate h (lit "1970-01-01 " ++ s)); [| discriminate].
    intros [= <-]. apply pad2_clock; [apply hour_range | apply min_range].
Qed.

Lemma normalizeTime_strict_id h s :
  test time24HourRegex s = true -> normalizeTime h s = Ok s.
Proof.
  intros H. unfold normalizeTime. rewrite (time24_trim s H), H. reflexivity.
Qed.

Lemma digit_cases c :
  isDigit c = true ->
  In c ["0"; "1"; "2"; "3"; "4"; "5"; "6"; "7"; "8"; "9"]%char.
Proof.
  destruct c as [[] [] [] [] [] [] [] []]; vm_compute; intros H;
    try discriminate H; tauto.
Qed.

(** Every strict [HH:MM] is the padded form of its hour and minute. *)
Lemma time24_numeric s :
  test time24HourRegex s = true ->
  exists hh mm, 0 <= hh < 24 /\ 0 <= mm < 60
                /\ s = pad 2 hh ++ lit ":" ++ pad 2 mm.
Proof.
  intros Hs. pose proof Hs as Hshape.
  apply time24_shape in Hshape as (a & b & c & d & -> & Hab & Hc & Hd).
  assert (isDigit a = true /\ isDigit b = true) as [Ha Hb].
  { destruct Hab as [[Ha Hb] | [-> Hb]]; split; auto.
    - apply (between_digit 48 49); auto; lia.
    - apply (between_digit 48 51); auto; lia. }
  apply (between_digit 48 53) in Hc; try lia.
  apply digit_cases in Ha, Hb, Hc, Hd.
  set (digits := ["0"; "1"; "2"; "3"; "4"; "5"; "6"; "7"; "8"; "9"]%char) in *.
  assert (forallb (fun a => forallb (fun b => forallb (fun c => forallb (fun d =>
            implb (test time24HourRegex [a; b; ":"%char; c; d])
              match number 0 [a; b], number 0 [c; d] with
              | Some hh, Some mm =>
                  (0 <=? hh) && (hh <? 24) && (0 <=? mm) && (mm <? 60)
                  && jsstring_eqb (pad 2 hh ++ lit ":" ++ pad 2 mm)
                       [a; b; ":"%char; c; d]
              | _, _ => false
              end) digits) digits) digits) digits = true) as H
    by (vm_compute; reflexivity).
  rewrite forallb_forall in H. specialize (H a Ha).
  rewrite forallb_forall in H. specialize (H b Hb).
  rewrite forallb_forall in H. specialize (H c Hc).
  rewrite forallb_forall in H. specialize (H d Hd).
  cbv beta in H. rewrite Hs in H. unfold implb in H. cbv iota in H.
  destruct (number 0 [a; b]) as [hh |]; [| cbv iota in H; discriminate H].
  destruct (number 0 [c; d]) as [mm |]; [| cbv iota in H; discriminate H].
  rewrite !andb_true_iff in H. destruct H as ((((H1 & H2) & H3) & H4) & Heq).
  apply Z.leb_le in H1, H3. apply Z.ltb_lt in H2, H4.
  unfold jsstring_eqb in Heq.
  destruct (list_eq_dec ascii_dec (pad 2 hh ++ lit ":" ++ pad 2 mm)
              [a; b; ":"%char; c; d]) as [E |]; [| discriminate].
  exists hh, mm. split; [lia |]. split; [lia |]. symmetry. exact E.
Qed.

End TimeMore.

(** X5.  Whatever [normalizeTime] returns is a strict 24-hour [HH:MM], and
    normalising it again, on any host, returns it unchanged. *)
Theorem normalizeTime_stable (h h' : Host) (s r : jsstring) :
  normalizeTime h s = Ok r ->
  test time24HourRegex r = true /\ normalizeTime h' r = Ok r.
Proof.
  intros H. apply normalizeTime_ok_strict in H.
  split; [exact H | apply normalizeTime_strict_id; exact H].
Qed.

Lemma normalizeTime_stable_witness :
  normalizeTime nodeEAT (lit "2:30 PM") = Ok (lit "14:30")
  /\ test time24HourRegex (lit "14:30") = true
  /\ normalizeTime nodeUTC (lit "14:30") = Ok (lit "14:30").
Proof.
  assert (H : normalizeTime nodeEAT (lit "2:30 PM") = Ok (lit "14:30"))
    by (vm_compute; reflexivity).
  split; [exact H |].
  exact (normalizeTime_stable nodeEAT nodeUTC (lit "2:30 PM") (lit "14:30") H).
Defined.

(** X6.  The pattern of [normalizeTime] accepts exactly the strings made of
    an hour from 0 to 23 and a minute from 0 to 59, each written with two
    digits, with a colon between them. *)
Theorem time24HourRegex_accepts :
  forall s : jsstring,
    test time24HourRegex s = true
    <-> exists hh mm : Z,
        (0 <= hh < 24)%Z /\ (0 <= mm < 60)%Z
        /\ s = pad 2 hh ++ lit ":" ++ pad 2 mm.
Proof.
  intros s. split.
  - apply time24_numeric.
  - intros (hh & mm & Hh & Hm & ->). apply pad2_clock; assumption.
Qed.

Section DateMore.

Local Open Scope Z_scope.

Lemma DayWithinYear_range t :
  0 <= DayWithinYear t < DaysInYear (YearFromTime t).
Proof.
  unfold DayWithinYear. pose proof (YearFromTime_spec t) as H.
  rewrite DayFromYear_step in H. lia.
Qed.

(** The month and day that the date functions give exist in the year they
    give. *)
Lemma date_parts_valid t :
  0 <= MonthFromTime t <= 11
  /\ 1 <= DateFromTime t <= DaysInMonth (YearFromTime t) (MonthFromTime t).
Proof.
  pose proof (DayWithinYear_range t) as Hx.
  unfold DateFromTime, DaysInMonth.
  assert (exists M, MonthFromTime t = M /\ 0 <= M <= 11
                    /\ daysBeforeMonth (InLeapYear t) M <= DayWithinYear t
                    /\ DayWithinYear t - daysBeforeMonth (InLeapYear t) M + 1
                       <= (if M =? 11 then 31
                           else daysBeforeMonth (InLeapYear t) (M + 1)
                                - daysBeforeMonth (InLeapYear t) M))
    as (M & -> & HM & Hlo & Hhi).
  { unfold MonthFromTime. cbv zeta.
    unfold InLeapYear, DaysInYear in *.
    set (x := DayWithinYear t) in *. clearbody x.
    set (l := isLeap (YearFromTime t)) in *. clearbody l.
    destruct l;
      repeat match goal with
        | |- context [if ?a <? ?b then _ else _] =>
            let E := fresh in
            destruct (a <? b) eqn:E;
            [apply Z.ltb_lt in E | apply Z.ltb_ge in E]
        end;
      (eexists; split; [reflexivity |];
       repeat match goal with
         | |- context [Z.eqb ?a ?b] =>
             let v := eval vm_compute in (Z.eqb a b) in
             change (Z.eqb a b) with v
         end;
       table; lia). }
  unfold InLeapYear in *. split; [exact HM |]. lia.
Qed.

Lemma yearString_pad y : 0 <= y <= 9999 -> yearString y = pad 4 y.
Proof.
  intros H. unfold yearString.
  assert ((0 <=? y) && (y <=? 9999) = true) as ->
      by (rewrite andb_true_iff, !Z.leb_le; lia).
  reflexivity.
Qed.

(** For a year of four digits, what [normalizeDate] writes is the canonical
    form of a date that exists. *)
Lemma utcDate_canonical t :
  0 <= YearFromTime t <= 9999 ->
  validDate (YearFromTime t) (MonthFromTime t) (DateFromTime t)
  /\ utcDate t
     = canonicalDate (YearFromTime t) (MonthFromTime t) (DateFromTime t).
Proof.
  intros Hy. destruct (date_parts_valid t) as [Hm Hd]. split.
  - repeat split; lia.
  - unfold utcDate, canonicalDate. rewrite yearString_pad by exact Hy.
    reflexivity.
Qed.

End DateMore.

(** X7.  A date already written [YYYY-MM-DD], for a day that exists in a
    year from 0000 to 9999, is returned by [normalizeDate] as it is, on
    every host. *)
Theorem normalizeDate_keeps_canonical (h : Host) (y m d : Z) :
  validDate y m d ->
  normalizeDate h (canonicalDate y m d) = Ok (canonicalDate y m d).
Proof. apply normalizeDate_canonical. Qed.

Lemma normalizeDate_keeps_canonical_witness :
  validDate 2024 1 29
  /\ canonicalDate 2024 1 29 = lit "2024-02-29"
  /\ normalizeDate nodeEAT (lit "2024-02-29") = Ok (lit "2024-02-29").
Proof.
  assert (Hv : validDate 2024 1 29)
    by (vm_compute; repeat split; discriminate).
  split; [exact Hv |]. split; [reflexivity |].
  exact (normalizeDate_keeps_canonical nodeEAT 2024 1 29 Hv).
Defined.

(** X8.  When [normalizeDate] accepts a string and the instant read lies in
    a year from 0000 to 9999 (in UTC), the result is the canonical form of a
    date that exists, and normalising the result again, on any host, returns
    it unchanged. *)
Theorem normalizeDate_idempotent (h h' : Host) (s : jsstring) (t : Z) :
  newDate h s = Some t ->
  (0 <= YearFromTime t <= 9999)%Z ->
  exists y m d : Z,
    validDate y m d
    /\ normalizeDate h s = Ok (canonicalDate y m d)
    /\ normalizeDate h' (canonicalDate y m d) = Ok (canonicalDate y m d).
Proof.
  intros Hn Hy. destruct (utcDate_canonical t Hy) as [Hv Hc].
  exists (YearFromTime t), (MonthFromTime t), (DateFromTime t).
  split; [exact Hv |]. split.
  - rewrite (normalizeDate_utcDate h s t Hn), Hc. reflexivity.
  - apply normalizeDate_canonical. exact Hv.
Qed.

Lemma normalizeDate_idempotent_witness :
  newDate nodeEAT (lit "March 5, 2025") = Some 1741122000000%Z
  /\ (0 <= YearFromTime 1741122000000 <= 9999)%Z
  /\ normalizeDate nodeEAT (lit "March 5, 2025") = Ok (lit "2025-03-04")
  /\ normalizeDate nodeUTC (lit "2025-03-04") = Ok (lit "2025-03-04").
Proof.
  assert (Hn : newDate nodeEAT (lit "March 5, 2025") = Some 1741122000000%Z)
    by (vm_compute; reflexivity).
  assert (Hy : (0 <= YearFromTime 1741122000000 <= 9999)%Z)
    by (vm_compute; split; discriminate).
  split; [exact Hn |]. split; [exact Hy |].
  destruct (normalizeDate_idempotent nodeEAT nodeUTC (lit "March 5, 2025")
              1741122000000%Z Hn Hy) as (y & m & d & Hv & H1 & H2).
  assert (E : canonicalDate y m d = lit "2025-03-04").
  { assert (normalizeDate nodeEAT (lit "March 5, 2025") = Ok (lit "2025-03-04"))
      as H0 by (vm_compute; reflexivity).
    rewrite H0 in H1. injection H1 as H1. symmetry. exact H1. }
  rewrite E in H1, H2. split; [exact H1 | exact H2].
Defined.

(** X9.  A date string that the host reads as a local midnight is written
    as that day when the host is at UTC or west of it (by less than a day),
    and as the day before when the host is east of UTC. *)
Theorem normalizeDate_local_midnight (h : Host) (s : jsstring) (day : Z) :
  newDate h s = Some (UTC h (MakeDate day 0)) ->
  ((- msPerDay < LocalTZA h <= 0)%Z ->
   normalizeDate h s = Ok (utcDate (MakeDate day 0)))
  /\ ((0 < LocalTZA h <= msPerDay)%Z ->
      normalizeDate h s = Ok (utcDate (MakeDate (day - 1) 0))).
Proof.
  intros Hn. split; intros Hz.
  - apply normalizeDate_local_midnight_west; assumption.
  - apply normalizeDate_local_midnight_east; assumption.
Qed.

Lemma normalizeDate_local_midnight_witness :
  (newDate nodeEST (lit "March 5, 2025")
   = Some (UTC nodeEST (MakeDate 20152 0))
   /\ (- msPerDay < LocalTZA nodeEST <= 0)%Z
   /\ normalizeDate nodeEST (lit "March 5, 2025") = Ok (lit "2025-03-05"))
  /\ (newDate nodeEAT (lit "March 5, 2025")
      = Some (UTC nodeEAT (MakeDate 20152 0))
      /\ (0 < LocalTZA nodeEAT <= msPerDay)%Z
      /\ normalizeDate nodeEAT (lit "March 5, 2025") = Ok (lit "2025-03-04")).
Proof.
  split.
  - assert (Hn : newDate nodeEST (lit "March 5, 2025")
                 = Some (UTC nodeEST (MakeDate 20152 0)))
      by (vm_compute; reflexivity).
    assert (Hz : (- msPerDay < LocalTZA nodeEST <= 0)%Z)
      by (vm_compute; split; [reflexivity | discriminate]).
    split; [exact Hn |]. split; [exact Hz |].
    destruct (normalizeDate_local_midnight nodeEST (lit "March 5, 2025")
                20152%Z Hn) as [Hw _].
    rewrite (Hw Hz). vm_compute. reflexivity.
  - assert (Hn : newDate nodeEAT (lit "March 5, 2025")
                 = Some (UTC nodeEAT (MakeDate 20152 0)))
      by (vm_compute; reflexivity).
    assert (Hz : (0 < LocalTZA nodeEAT <= msPerDay)%Z)
      by (vm_compute; split; [reflexivity | discriminate]).
    split; [exact Hn |]. split; [exact Hz |].
    destruct (normalizeDate_local_midnight nodeEAT (lit "March 5, 2025")
                20152%Z Hn) as [_ He].
    rewrite (He Hz). vm_compute. reflexivity.
Defined.

(** ** More on validation and on what is stored *)

Section StoreMore.

Variable h : Host.

Lemma trim_blank s : forallb isWhiteSpace s = true -> trim s = [].
Proof.
  intros H. unfold trim, trimEnd.
  assert (trimStart s = []) as ->; [| reflexivity].
  induction s as [| c s IH]; simpl in *; [reflexivity |].
  apply andb_true_iff in H as [Hc Hs]. rewrite Hc. auto.
Qed.

Lemma In_check ok (q p : EventPath) (msg : string) (m : jsstring) :
  In (p, m) (check ok q msg) <-> ok = false /\ p = q /\ m = lit msg.
Proof.
  unfold check. destruct ok; simpl.
  - split; [tauto | intros [H _]; discriminate].
  - split.
    + intros [[= <- <-] | []]. auto.
    + intros (_ & -> & ->). left. reflexivity.
Qed.

(** The errors on the path [mode] come from the validators of [mode]. *)
Lemma validate_mode e m :
  In (Pmode, m) (validate e) <->
  (requiredString (mode e) = false /\ m = lit "Event mode is required")
  \/ (requiredString (mode e) = true /\ inEnum modeValues (mode e) = false
      /\ m = lit "Mode must be either online, offline, or hybrid").
Proof.
  unfold validate. rewrite !in_app_iff.
  destruct (requiredString (mode e)) eqn:Er; rewrite !In_check;
    split; intros H.
  - repeat (destruct H as [H | H]);
      try (destruct H as (_ & Hp & _); discriminate Hp).
    destruct H as (H1 & _ & H2). right. auto.
  - destruct H as [[H _] | (_ & H1 & H2)]; [discriminate |].
    do 8 right. left. auto.
  - repeat (destruct H as [H | H]);
      try (destruct H as (_ & Hp & _); discriminate Hp).
    destruct H as (_ & _ & H2). left. auto.
  - destruct H as [[_ H] | (H & _)]; [| discriminate].
    do 8 right. left. auto.
Qed.

Lemma existsb_eqb_In s values :
  existsb (jsstring_eqb s) values = true <-> In s values.
Proof.
  rewrite existsb_exists. unfold jsstring_eqb. split.
  - intros (x & Hin & H). destruct (list_eq_dec ascii_dec s x); [| discriminate].
    subst. exact Hin.
  - intros Hin. exists s. split; [exact Hin |].
    destruct (list_eq_dec ascii_dec s s); [reflexivity | contradiction].
Qed.

Lemma sign_not_space y :
  isWhiteSpace (if (y <? 0)%Z then "-"%char else "+"%char) = false.
Proof. destruct (y <? 0)%Z; reflexivity. Qed.

Lemma utcDate_no_space t : Forall (fun c => isWhiteSpace c = false) (utcDate t).
Proof.
  assert (Hd : forall w n, Forall (fun c => isWhiteSpace c = false) (pad w n)).
  { intros w n. eapply Forall_impl; [apply digit_not_space | apply pad_digits]. }
  unfold utcDate.
  apply Forall_app; split.
  { unfold yearString. destruct ((0 <=? YearFromTime t)%Z
                                 && (YearFromTime t <=? 9999)%Z); [apply Hd |].
    constructor; [apply sign_not_space | apply Hd]. }
  apply Forall_app; split; [repeat constructor |].
  apply Forall_app; split; [apply Hd |].
  apply Forall_app; split; [repeat constructor | apply Hd].
Qed.

(** What the hook leaves in a new document when it goes through. *)
Lemma preSave_new_fields d d' :
  isNew d = true -> preSave h d = (d', None) ->
  exists t s tv ts r,
    title (fields d) = Some t
    /\ date (fields d) = Some s /\ newDate h s = Some tv
    /\ time (fields d) = Some ts /\ normalizeTime h ts = Ok r
    /\ d' = withFields d
              (setTime (Some r)
                 (setDate (Some (utcDate tv))
                    (setSlug (Some (generateSlug t)) (fields d)))).
Proof.
  intros Hn. hook_unfold. simpl. rewrite Hn. simpl.
  destruct (title (fields d)) as [t |] eqn:Et; simpl; [| discriminate].
  rewrite Hn. simpl.
  destruct (date (fields d)) as [s |] eqn:Es; simpl; [| discriminate].
  unfold normalizeDate.
  destruct (newDate h s) as [tv |] eqn:En; simpl; [| discriminate].
  rewrite Hn. simpl.
  destruct (time (fields d)) as [ts |] eqn:Ets; simpl; [| discriminate].
  destruct (normalizeTime h ts) as [r | e] eqn:Er; simpl; [| discriminate].
  intros [= <-]. exists t, s, tv, ts, r.
  split; [reflexivity |]. split; [reflexivity |]. split; [exact En |].
  split; [reflexivity |]. split; [exact Er |].
  unfold assignTime, assignDate, assignSlug, withFields. simpl.
  rewrite toISOString_date.
  rewrite (trim_no_space (utcDate tv)) by apply utcDate_no_space.
  rewrite (time24_trim r) by (eapply normalizeTime_ok_strict; exact Er).
  pose proof (setLowerTrim_slug t) as Hslug. unfold setLowerTrim in Hslug.
  simpl in Hslug. injection Hslug as ->. reflexivity.
Qed.

End StoreMore.

(** X10.  A new Event whose title is only whitespace is rejected: the
    [trim] setter empties the title, the [required] validator then reports
    the path [title], and the collection is left as it was. *)
Theorem blank_title_rejected
  (h : Host) (db : Events) (id : ObjectId) (raw : IEvent) (s : jsstring) :
  title raw = Some s ->
  forallb isWhiteSpace s = true ->
  In (Ptitle, lit "Event title is required") (validate (fields (newEvent id raw)))
  /\ save h db (newEvent id raw)
     = (db, newEvent id raw,
        Some (ValidationError (validate (fields (newEvent id raw))))).
Proof.
  intros Ht Hs.
  assert (Hin : In (Ptitle, lit "Event title is required")
                   (validate (fields (newEvent id raw)))).
  { unfold validate. apply in_or_app. left. simpl. rewrite Ht. simpl.
    rewrite (trim_blank s Hs). left. reflexivity. }
  split; [exact Hin |]. apply save_invalid. intros E. rewrite E in Hin.
  destruct Hin.
Qed.

Lemma blank_title_rejected_witness :
  title (eventInput "   ") = Some (lit "   ")
  /\ forallb isWhiteSpace (lit "   ") = true
  /\ fst (fst (save nodeUTC [storedEvent] (newEvent id2 (eventInput "   "))))
     = [storedEvent].
Proof.
  split; [reflexivity |]. split; [reflexivity |].
  destruct (blank_title_rejected nodeUTC [storedEvent] id2 (eventInput "   ")
              (lit "   ") eq_refl eq_refl) as [_ H].
  rewrite H. reflexivity.
Defined.

(** X11.  The mode of a new Event passes validation exactly when, once
    trimmed, it is one of [online], [offline], [hybrid], written so: the
    path has a [trim] setter and no [lowercase] one. *)
Theorem mode_accepted_iff (id : ObjectId) (raw : IEvent) (m : jsstring) :
  mode raw = Some m ->
  ((forall msg : jsstring,
       ~ In (Pmode, msg) (validate (fields (newEvent id raw))))
   <-> In (trim m) modeValues).
Proof.
  intros Hm. split.
  - intros Hno.
    destruct (requiredString (mode (fields (newEvent id raw)))) eqn:Er.
    + destruct (inEnum modeValues (mode (fields (newEvent id raw)))) eqn:Ee.
      * simpl in Ee. rewrite Hm in Ee. simpl in Ee.
        apply existsb_eqb_In. exact Ee.
      * exfalso. eapply Hno. apply validate_mode. right. eauto.
    + exfalso. eapply Hno. apply validate_mode. left. eauto.
  - intros Hin msg Hbad. apply validate_mode in Hbad.
    simpl in Hbad. rewrite Hm in Hbad. simpl in Hbad.
    destruct Hbad as [[Hr _] | (_ & He & _)].
    + destruct (trim m); [| discriminate].
      repeat (destruct Hin as [Hin | Hin]; [discriminate |]). destruct Hin.
    + apply existsb_eqb_In in Hin. simpl in Hin. congruence.
Qed.

Lemma mode_accepted_iff_witness :
  mode (eventInput "Launch Day") = Some (lit "hybrid")
  /\ In (trim (lit "hybrid")) modeValues
  /\ forall msg : jsstring,
      ~ In (Pmode, msg)
          (validate (fields (newEvent id1 (eventInput "Launch Day")))).
Proof.
  split; [reflexivity |].
  assert (Hin : In (trim (lit "hybrid")) modeValues)
    by (right; right; left; reflexivity).
  split; [exact Hin |].
  apply (mode_accepted_iff id1 (eventInput "Launch Day") (lit "hybrid") eq_refl).
  exact Hin.
Defined.

(** X12.  When the save of a new Event succeeds, the document appended to
    the collection is the one given with three fields rewritten: the slug
    is the slug of its title, the date is the UTC calendar date of the
    instant its date string was read as, and the time is the strict
    [HH:MM] that [normalizeTime] returned.  Nothing else changes. *)
Theorem save_new_event_stored_form
  (h : Host) (db db' : Events) (d d' : EventDocument) :
  isNew d = true ->
  save h db d = (db', d', None) ->
  exists (t s ts r : jsstring) (tv : Z),
    title (fields d) = Some t
    /\ date (fields d) = Some s /\ newDate h s = Some tv
    /\ time (fields d) = Some ts /\ normalizeTime h ts = Ok r
    /\ test time24HourRegex r = true
    /\ fields d'
       = setTime (Some r)
           (setDate (Some (utcDate tv))
              (setSlug (Some (generateSlug t)) (fields d)))
    /\ db' = db ++ [fields d'].
Proof.
  intros Hn Hs. apply save_ok_inv in Hs as (_ & Hp & Hw).
  destruct (preSave_new_fields h d d' Hn Hp)
    as (t & s & tv & ts & r & Ht & Hd & Hnew & Hts & Hr & ->).
  exists t, s, ts, r, tv. repeat (split; [assumption |]).
  split; [eapply normalizeTime_ok_strict; exact Hr |].
  split; [reflexivity |].
  revert Hw. unfold write. simpl. rewrite Hn. simpl.
  destruct (exists_ db (_id (fields d))); [discriminate |].
  destruct (slugTaken db _); [discriminate |].
  intros [= <-]. reflexivity.
Qed.

Lemma save_new_event_stored_form_witness :
  isNew (newEvent id1 looseInput) = true
  /\ exists e : IEvent,
      fst (fst (save nodeUTC [] (newEvent id1 looseInput))) = [e]
      /\ slug e = Some (lit "launch-day")
      /\ date e = Some (lit "2025-03-05")
      /\ time e = Some (lit "14:30").
Proof.
  split; [reflexivity |].
  destruct (save nodeUTC [] (newEvent id1 looseInput))
    as [[db' d'] r] eqn:E.
  assert (r = None) as -> by (vm_compute in E; congruence).
  destruct (save_new_event_stored_form nodeUTC [] db'
              (newEvent id1 looseInput) d' eq_refl E)
    as (t & s & ts & r & tv & Ht & Hd & Hn & Hts & Hr & _ & Hf & ->).
  exists (fields d'). split; [reflexivity |].
  injection Ht as <-. injection Hd as <-. injection Hts as <-.
  assert (tv = 1741132800000%Z) as ->
      by (vm_compute in Hn; congruence).
  assert (r = lit "14:30") as ->
      by (vm_compute in Hr; injection Hr as <-; reflexivity).
  rewrite Hf. repeat split; vm_compute; reflexivity.
Defined.

(** ** More on the Booking model *)

Section BookingMore.

Lemma count_at_part l :
  forallb B.notSpaceOrAt l = true -> count_occ ascii_dec l "@"%char = 0.
Proof.
  induction l as [| c l IH]; simpl; [reflexivity |].
  intros H. apply andb_true_iff in H as [Hc Hl].
  destruct (ascii_dec c "@") as [-> |]; [discriminate Hc | auto].
Qed.

Lemma booking_validate_same b b' :
  B.eventId b = B.eventId b' -> B.email b = B.email b' ->
  B.validate b = B.validate b'.
Proof. unfold B.validate. intros -> ->. reflexivity. Qed.

End BookingMore.

(** X13.  When a stored Booking is saved again without its [eventId]
    having been touched, the hook does not look at the events collection:
    it passes, whether the referenced Event exists or not, and the outcome
    of the save is the same for every events collection. *)
Theorem booking_check_skipped
  (events events' : Events) (db : B.Bookings) (d : B.BookingDocument) :
  B.isNew d = false ->
  B.isModified d B.PeventId = false ->
  B.preSave events d = (d, None)
  /\ B.save events db d = B.save events' db d.
Proof.
  intros Hn Hm.
  assert (Hp : forall ev, B.preSave ev d = (d, None)).
  { intros ev. unfold B.preSave, tryNext, B.preSaveBody, bind, this, when, ret.
    rewrite Hn, Hm. reflexivity. }
  split; [apply Hp |]. unfold B.save. rewrite !Hp. reflexivity.
Qed.

Lemma booking_check_skipped_witness :
  B.isNew emailUpdate = false
  /\ B.isModified emailUpdate B.PeventId = false
  /\ B.eventExists [] (B.eventId (B.fields emailUpdate)) = false
  /\ B.save [] [storedBooking] emailUpdate
     = ([B.fields emailUpdate], emailUpdate, None).
Proof.
  split; [reflexivity |]. split; [reflexivity |]. split; [reflexivity |].
  destruct (booking_check_skipped [] [storedEvent] [storedBooking] emailUpdate
              eq_refl eq_refl) as [_ H].
  rewrite H. vm_compute. reflexivity.
Defined.

(** X14.  Nothing keeps one email from booking the same Event twice: after
    a new Booking has been saved, a second new Booking with the same
    [eventId] and [email] and an identifier not yet in the collection is
    saved too. *)
Theorem duplicate_booking_accepted
  (events : Events) (db db1 : B.Bookings) (d1 d1' d2 : B.BookingDocument) :
  B.isNew d1 = true ->
  B.save events db d1 = (db1, d1', None) ->
  B.isNew d2 = true ->
  B.eventId (B.fields d2) = B.eventId (B.fields d1) ->
  B.email (B.fields d2) = B.email (B.fields d1) ->
  B.stored db1 (B._id (B.fields d2)) = false ->
  B.save events db1 d2 = (db1 ++ [B.fields d2], d2, None).
Proof.
  intros Hn1 Hs1 Hn2 Hev Hem Hfree.
  apply booking_save_ok_inv in Hs1 as (Hv & Hp & _).
  unfold B.save.
  rewrite (booking_validate_same (B.fields d2) (B.fields d1) Hev Hem), Hv.
  assert (Hex : B.eventExists events (B.eventId (B.fields d1)) = true).
  { revert Hp. unfold B.preSave, tryNext, B.preSaveBody, bind, this, when,
      ret, throw. rewrite Hn1. simpl.
    destruct (B.eventExists events (B.eventId (B.fields d1)));
      [reflexivity | discriminate]. }
  assert (Hp2 : B.preSave events d2 = (d2, None)).
  { unfold B.preSave, tryNext, B.preSaveBody, bind, this, when, ret, throw.
    rewrite Hn2. simpl. rewrite Hev, Hex. reflexivity. }
  rewrite Hp2. unfold B.write. rewrite Hn2, Hfree. reflexivity.
Qed.

Lemma duplicate_booking_accepted_witness :
  B.save [storedEvent] [] booking1 = ([B.fields booking1], booking1, None)
  /\ B.save [storedEvent] [B.fields booking1] booking1Again
     = ([B.fields booking1; B.fields booking1Again], booking1Again, None)
  /\ B.email (B.fields booking1Again) = B.email (B.fields booking1)
  /\ B.eventId (B.fields booking1Again) = B.eventId (B.fields booking1).
Proof.
  assert (H1 : B.save [storedEvent] [] booking1
               = ([B.fields booking1], booking1, None))
    by (vm_compute; reflexivity).
  split; [exact H1 |]. split; [| split; reflexivity].
  exact (duplicate_booking_accepted [storedEvent] [] [B.fields booking1]
           booking1 booking1 booking1Again eq_refl H1 eq_refl eq_refl eq_refl
           eq_refl).
Defined.

(** X15.  The email pattern accepts exactly the strings of the form
    [local@domain.rest] whose three parts are non-empty and contain neither
    whitespace nor [@]; such a string holds exactly one [@]. *)
Theorem emailRegex_accepts :
  forall s : jsstring,
    (test B.emailRegex s = true <->
     exists l d1 d2 : jsstring,
       s = l ++ "@"%char :: d1 ++ "."%char :: d2
       /\ l <> [] /\ d1 <> [] /\ d2 <> []
       /\ forallb B.notSpaceOrAt l = true
       /\ forallb B.notSpaceOrAt d1 = true
       /\ forallb B.notSpaceOrAt d2 = true)
    /\ (test B.emailRegex s = true -> count_occ ascii_dec s "@"%char = 1).
Proof.
  intros s. split; [apply email_shape |].
  intros H. apply email_shape in H
    as (l & d1 & d2 & -> & _ & _ & _ & Hl & H1 & H2).
  rewrite count_occ_app. simpl. rewrite count_occ_app. simpl.
  rewrite (count_at_part l Hl), (count_at_part d1 H1), (count_at_part d2 H2).
  reflexivity.
Qed.

Lemma emailRegex_accepts_witness :
  test B.emailRegex (lit "user@example.com") = true
  /\ count_occ ascii_dec (lit "user@example.com") "@"%char = 1.
Proof.
  assert (H : test B.emailRegex (lit "user@example.com") = true)
    by reflexivity.
  split; [exact H |].
  destruct (emailRegex_accepts (lit "user@example.com")) as [_ Hc].
  exact (Hc H).
Defined.

(** ** lib/mongodb.ts: the cached connection *)

Section MongoTheory.

Variable server : nat -> Result Connection.
Variable uri : jsstring.

Lemma connect_cached cached w c :
  conn cached = Some c ->
  connectToDatabase server uri (cached, w) = ((cached, w), Ok c).
Proof. unfold connectToDatabase. intros ->. reflexivity. Qed.

Lemma connect_ok_conn st st1 c :
  connectToDatabase server uri st = (st1, Ok c) -> conn (fst st1) = Some c.
Proof.
  destruct st as [cached w]. unfold connectToDatabase.
  destruct (conn cached) as [c0 |] eqn:Ec.
  - intros [= <- <-]. exact Ec.
  - destruct (promise cached) as [[c1 | e] |]; simpl.
    + intros [= <- <-]. reflexivity.
    + discriminate.
    + destruct (server (attempts w)) as [c1 | e]; simpl.
      * intros [= <- <-]. reflexivity.
      * discriminate.
Qed.

Lemma calls_S n st :
  calls (S n) server uri st
  = (let (st1, r) := connectToDatabase server uri st in
     let (st2, rs) := calls n server uri st1 in (st2, r :: rs)).
Proof. reflexivity. Qed.

Lemma calls_cached n cached w c :
  conn cached = Some c ->
  calls n server uri (cached, w) = ((cached, w), repeat (Ok c) n).
Proof.
  intros Hc. induction n as [| n IH]; [reflexivity |].
  rewrite calls_S, (connect_cached cached w c Hc), IH. reflexivity.
Qed.

Lemma connect_empty_fail w e :
  server (attempts w) = Throw e ->
  connectToDatabase server uri (emptyCache, w)
  = ((emptyCache,
      emit [LogConnectionError e] (emit [Connect uri false] (attempt w))),
     Throw e).
Proof. unfold connectToDatabase. simpl. intros ->. reflexivity. Qed.

Lemma connect_empty_ok w c :
  server (attempts w) = Ok c ->
  connectToDatabase server uri (emptyCache, w)
  = (({| conn := Some c; promise := Some (Resolved c) |},
      emit [LogConnected] (emit [Connect uri false] (attempt w))),
     Ok c).
Proof. unfold connectToDatabase. simpl. intros ->. reflexivity. Qed.

(** From the empty cache, calls go to the server one by one until it gives
    a connection. *)
Lemma calls_until_success k : forall w c,
  (forall i, i < k -> exists e, server (attempts w + i) = Throw e) ->
  server (attempts w + k) = Ok c ->
  exists w',
    calls (S k) server uri (emptyCache, w)
    = (({| conn := Some c; promise := Some (Resolved c) |}, w'),
       map server (seq (attempts w) (S k)))
    /\ attempts w' = attempts w + S k.
Proof.
  induction k as [| k IH]; intros w c Hfail Hok.
  - rewrite Nat.add_0_r in Hok. eexists.
    rewrite calls_S, (connect_empty_ok w c Hok). simpl calls. simpl map.
    rewrite Hok. split; [reflexivity |]. simpl. lia.
  - destruct (Hfail 0 ltac:(lia)) as [e He]. rewrite Nat.add_0_r in He.
    set (w1 := emit [LogConnectionError e] (emit [Connect uri false] (attempt w))).
    assert (Ha : attempts w1 = S (attempts w)) by reflexivity.
    destruct (IH w1 c) as (w' & Hcalls & Hw').
    + intros i Hi. rewrite Ha. destruct (Hfail (S i) ltac:(lia)) as [e' He'].
      exists e'. rewrite <- He'. f_equal. lia.
    + rewrite Ha, <- Hok. f_equal. lia.
    + exists w'. split; [| lia].
      rewrite calls_S, (connect_empty_fail w e He). fold w1.
      rewrite Hcalls, Ha.
      change (seq (attempts w) (S (S k)))
        with (attempts w :: seq (S (attempts w)) (S k)).
      simpl map. rewrite He. reflexivity.
Qed.


End MongoTheory.

(** X16.  Once a call of [connectToDatabase] has returned a connection,
    every later call returns that same connection and touches nothing: no
    further [mongoose.connect], no log line, the cache as it was. *)
Theorem connect_reuses_connection
  (server server' : nat -> Result Connection) (uri uri' : jsstring)
  (st st1 : Cache * World) (c : Connection) (n : nat) :
  connectToDatabase server uri st = (st1, Ok c) ->
  calls n server' uri' st1 = (st1, repeat (Ok c) n).
Proof.
  intros H. apply connect_ok_conn in H. destruct st1 as [cached w].
  apply calls_cached. exact H.
Qed.

Lemma connect_reuses_connection_witness :
  connectToDatabase (fun _ => Ok 7) mongoUri (emptyCache, freshWorld)
  = (({| conn := Some 7; promise := Some (Resolved 7) |},
      {| attempts := 1; trace := [Connect mongoUri false; LogConnected] |}),
     Ok 7)
  /\ calls 3 flaky mongoUri
       ({| conn := Some 7; promise := Some (Resolved 7) |},
        {| attempts := 1; trace := [Connect mongoUri false; LogConnected] |})
     = (({| conn := Some 7; promise := Some (Resolved 7) |},
         {| attempts := 1; trace := [Connect mongoUri false; LogConnected] |}),
        [Ok 7; Ok 7; Ok 7]).
Proof.
  assert (H : connectToDatabase (fun _ => Ok 7) mongoUri (emptyCache, freshWorld)
              = (({| conn := Some 7; promise := Some (Resolved 7) |},
                  {| attempts := 1;
                     trace := [Connect mongoUri false; LogConnected] |}),
                 Ok 7)) by reflexivity.
  split; [exact H |].
  exact (connect_reuses_connection (fun _ => Ok 7) flaky mongoUri mongoUri
           _ _ 7 3 H).
Defined.

(** X17.  A failed connection is not kept.  For calls made one after the
    other, each awaited before the next is made, starting from the empty
    cache: while [mongoose.connect] fails each call makes one new attempt
    and returns its error, and the first call whose attempt succeeds
    returns the connection and caches it.  After [k] failures and a
    success, [k + 1] attempts have been made.  (Calls that overlap share
    one pending promise and one attempt; they are outside this model.) *)
Theorem connect_retries_until_success
  (server : nat -> Result Connection) (uri : jsstring) (w : World)
  (k : nat) (c : Connection) :
  (forall i : nat, i < k -> exists e : JsError, server (attempts w + i) = Throw e) ->
  server (attempts w + k) = Ok c ->
  exists w' : World,
    calls (S k) server uri (emptyCache, w)
    = (({| conn := Some c; promise := Some (Resolved c) |}, w'),
       map server (seq (attempts w) (S k)))
    /\ attempts w' = attempts w + S k.
Proof. apply calls_until_success. Qed.

Lemma connect_retries_until_success_witness :
  (forall i : nat, i < 2 ->
     exists e : JsError, flaky (attempts freshWorld + i) = Throw e)
  /\ flaky (attempts freshWorld + 2) = Ok 7
  /\ exists w' : World,
      calls 3 flaky mongoUri (emptyCache, freshWorld)
      = (({| conn := Some 7; promise := Some (Resolved 7) |}, w'),
         [Throw (Error (lit "ECONNREFUSED"));
          Throw (Error (lit "ECONNREFUSED")); Ok 7])
      /\ attempts w' = 3.
Proof.
  assert (Hf : forall i : nat, i < 2 ->
             exists e : JsError, flaky (attempts freshWorld + i) = Throw e).
  { intros i Hi. exists (Error (lit "ECONNREFUSED")).
    destruct i as [| [| i]]; [reflexivity | reflexivity | lia]. }
  split; [exact Hf |]. split; [reflexivity |].
  destruct (connect_retries_until_success flaky mongoUri freshWorld 2 7 Hf
              eq_refl) as (w' & Hc & Ha).
  exists w'. split; [exact Hc | exact Ha].
Defined.



(** X19.  Loading the module throws exactly when [MONGODB_URI] is unset or
    empty.  Loaded again while [global.mongoose] holds a connection (a hot
    reload), the module takes that cache over, and [connectToDatabase]
    returns the connection it holds without connecting. *)
Theorem load_module_guard_and_reuse :
  (forall (env : option jsstring) (global : option Cache),
      loadModule env global = Throw missingUri
      <-> env = None \/ env = Some [])
  /\ (forall (env : jsstring) (cached : Cache) (c : Connection)
             (server : nat -> Result Connection) (w : World),
         env <> [] -> conn cached = Some c ->
         loadModule (Some env) (Some cached) = Ok (env, cached)
         /\ connectToDatabase server env (cached, w) = ((cached, w), Ok c)).
Proof.
  split.
  - intros env global. destruct env as [[| x u] |]; simpl; split; intros H;
      try discriminate; auto.
    destruct H as [H | H]; discriminate.
  - intros env cached c server w Hne Hc. split.
    + destruct env; [contradiction | reflexivity].
    + apply connect_cached. exact Hc.
Qed.

Lemma load_module_guard_and_reuse_witness :
  loadModule (Some []) None = Throw missingUri
  /\ loadModule (Some mongoUri)
       (Some {| conn := Some 7; promise := Some (Resolved 7) |})
     = Ok (mongoUri, {| conn := Some 7; promise := Some (Resolved 7) |})
  /\ connectToDatabase flaky mongoUri
       ({| conn := Some 7; promise := Some (Resolved 7) |}, freshWorld)
     = (({| conn := Some 7; promise := Some (Resolved 7) |}, freshWorld), Ok 7).
Proof.
  destruct load_module_guard_and_reuse as [Hguard Hreuse].
  split; [apply Hguard; right; reflexivity |].
  apply (Hreuse mongoUri {| conn := Some 7; promise := Some (Resolved 7) |} 7
           flaky freshWorld); [discriminate | reflexivity].
Defined.

(** ** Two more facts on times and on colliding titles *)

Section ClockMore.

Local Open Scope Z_scope.

Lemma clock_parts hh mm :
  0 <= hh < 24 -> 0 <= mm < 60 ->
  HourFromTime (MakeDate 0 (MakeTime hh mm 0 0)) = hh
  /\ MinFromTime (MakeDate 0 (MakeTime hh mm 0 0)) = mm.
Proof.
  intros Hh Hm.
  unfold HourFromTime, MinFromTime, MakeDate, MakeTime, msPerDay, msPerHour,
    msPerMinute, msPerSecond.
  split; Z.div_mod_to_equations; lia.
Qed.

End ClockMore.

(** X20.  Unlike the date, the time does not depend on where the host is:
    when the host reads a time string as the local time [hh:mm] of 1
    January 1970, whatever its offset from UTC, the time is normalised to
    [hh] and [mm] written with two digits each. *)
Theorem normalizeTime_local_clock
  (h : Host) (s : jsstring) (hh mm : Z) :
  (0 <= hh < 24)%Z -> (0 <= mm < 60)%Z ->
  test time24HourRegex (trim s) = false ->
  newDate h (lit "1970-01-01 " ++ s)
  = Some (UTC h (MakeDate 0 (MakeTime hh mm 0 0))) ->
  normalizeTime h s = Ok (pad 2 hh ++ lit ":" ++ pad 2 mm).
Proof.
  intros Hh Hm Hs Hn. unfold normalizeTime. rewrite Hs, Hn.
  rewrite getHours_UTC, getMinutes_UTC.
  destruct (clock_parts hh mm Hh Hm) as [-> ->]. reflexivity.
Qed.

Lemma normalizeTime_local_clock_witness :
  test time24HourRegex (trim (lit "7:45 pm")) = false
  /\ newDate nodeEST (lit "1970-01-01 " ++ lit "7:45 pm")
     = Some (UTC nodeEST (MakeDate 0 (MakeTime 19 45 0 0)))
  /\ normalizeTime nodeEST (lit "7:45 pm") = Ok (lit "19:45").
Proof.
  assert (Hs : test time24HourRegex (trim (lit "7:45 pm")) = false)
    by reflexivity.
  assert (Hn : newDate nodeEST (lit "1970-01-01 " ++ lit "7:45 pm")
               = Some (UTC nodeEST (MakeDate 0 (MakeTime 19 45 0 0))))
    by (vm_compute; reflexivity).
  split; [exact Hs |]. split; [exact Hn |].
  rewrite (normalizeTime_local_clock nodeEST (lit "7:45 pm") 19 45);
    [vm_compute; reflexivity | lia | lia | exact Hs | exact Hn].
Defined.

(** X21.  Two titles need not be equal to collide: the hook gives two new
    Events whose titles have the same slug the same [slug], so that, in a
    store that enforces the unique index the schema declares on [slug]
    (as [slugTaken] models it), once the first is written the second
    (valid, passing the hook, with a free identifier) is refused with the
    duplicate key error of that index, the collection unchanged. *)
Theorem colliding_titles_rejected
  (h : Host) (db db1 : Events) (d1 d1' d2 : EventDocument) (t1 t2 : jsstring) :
  isNew d1 = true -> isNew d2 = true ->
  title (fields d1) = Some t1 -> title (fields d2) = Some t2 ->
  generateSlug t1 = generateSlug t2 ->
  _id (fields d1) <> _id (fields d2) ->
  save h db d1 = (db1, d1', None) ->
  validate (fields d2) = [] ->
  snd (preSave h d2) = None ->
  exists_ db1 (_id (fields d2)) = false ->
  save h db1 d2
  = (db1, fst (preSave h d2), Some (DuplicateKey (lit "slug"))).
Proof.
  intros Hn1 Hn2 Ht1 Ht2 Hslug Hid Hs1 Hv2 Hp2 Hfree.
  apply save_ok_inv in Hs1 as (_ & Hp1 & Hw1).
  destruct (preSave_slug_new h d1 d1' Hn1 Hp1) as (u1 & Hu1 & Hslug1).
  rewrite Ht1 in Hu1. injection Hu1 as <-.
  assert (Hd1 : d1' = fst (preSave h d1)) by (rewrite Hp1; reflexivity).
  assert (Hin : In (fields d1') db1).
  { revert Hw1. unfold write.
    assert (isNew d1' = true) as -> by (rewrite Hd1, preSave_isNew; exact Hn1).
    destruct (exists_ db (_id (fields d1'))); simpl; [discriminate |].
    destruct (slugTaken db (fields d1')); [discriminate |].
    intros [= <-]. apply in_or_app. right. left. reflexivity. }
  destruct (preSave h d2) as [d2' r2] eqn:E2. simpl in Hp2. subst r2.
  destruct (preSave_slug_new h d2 d2' Hn2 E2) as (u2 & Hu2 & Hslug2).
  rewrite Ht2 in Hu2. injection Hu2 as <-.
  assert (Hd2 : d2' = fst (preSave h d2)) by (rewrite E2; reflexivity).
  unfold save. rewrite Hv2, E2. simpl fst.
  assert (Htaken : slugTaken db1 (fields d2') = true).
  { apply (slugTaken_true db1 (fields d2') (fields d1') Hin).
    - rewrite Hd1, Hd2, !preSave_id. exact Hid.
    - rewrite Hslug1, Hslug2, Hslug. reflexivity. }
  unfold write. rewrite Htaken.
  assert (isNew d2' = true) as -> by (rewrite Hd2, preSave_isNew; exact Hn2).
  assert (_id (fields d2') = _id (fields d2)) as ->
      by (rewrite Hd2; apply preSave_id).
  rewrite Hfree. reflexivity.
Qed.

Lemma colliding_titles_rejected_witness :
  generateSlug (lit "Launch Day") = generateSlug (lit "launch   DAY!")
  /\ exists (e1 : IEvent) (d2' : EventDocument),
      fst (fst (save nodeUTC [] (newEvent id1 (eventInput "Launch Day")))) = [e1]
      /\ save nodeUTC [e1] (newEvent id2 (eventInput "launch   DAY!"))
         = ([e1], d2', Some (DuplicateKey (lit "slug"))).
Proof.
  assert (Hslug : generateSlug (lit "Launch Day")
                  = generateSlug (lit "launch   DAY!"))
    by (vm_compute; reflexivity).
  split; [exact Hslug |].
  destruct (save nodeUTC [] (newEvent id1 (eventInput "Launch Day")))
    as [[db1 d1'] r] eqn:E.
  assert (r = None) as -> by (vm_compute in E; congruence).
  assert (exists e1, db1 = [e1]) as (e1 & ->).
  { vm_compute in E. injection E as <- _. eexists. reflexivity. }
  exists e1, (fst (preSave nodeUTC (newEvent id2 (eventInput "launch   DAY!")))).
  split; [reflexivity |].
  apply (colliding_titles_rejected nodeUTC [] [e1]
           (newEvent id1 (eventInput "Launch Day")) d1'
           (newEvent id2 (eventInput "launch   DAY!"))
           (lit "Launch Day") (lit "launch   DAY!"));
    try reflexivity; try exact Hslug; try exact E.
  - vm_compute. discriminate.
  - vm_compute in E. injection E as <- _. vm_compute. reflexivity.
Defined.
